(** * Keystroke dynamics recorder, comparator and analyzer (static/keystroke.js)

    A shallow embedding of the capture state machine [KeystrokeRecorder], of
    [compareKeystrokePatterns] and of [analyzeKeystrokePattern], followed by
    the properties of the specification that concern them.

    The file [static/keystroke.js] holds three revisions of the script.  The
    embedding follows the revision headed "Versión mejorada y corregida"
    (the one with [keyStates] mapping a key to the index of its open entry);
    the module [Legacy] embeds the two places where the older revisions
    differ and that the properties touch.

    Numbers.  The clock [performance.now()] returns fractional milliseconds:
    a clock reading is a rational [Q], and [Math.round] is the floor of
    [x + 1/2].  Stored times are whole milliseconds, [Z].  Averages, scores
    and the percentage thresholds are computed over [Q]; the products
    [length * 0.3] and [length * 0.5] are compared with integer counts only,
    for which the exact rational comparison and the IEEE double one agree. *)

From Stdlib Require Import ZArith QArith Qround Qminmax Lia.
From stdpp Require Import gmap strings list fin_maps sorting.

Local Open Scope Z_scope.

(** ** JavaScript numeric helpers *)

(** [Math.round(x)]: the nearest integer, halves rounded up. *)
Definition Math_round (x : Q) : Z := Qfloor (x + (1 # 2))%Q.

(** A variable holding a number or [null], as [startTime]. *)
Definition truthy (t : option Q) : bool :=
  match t with
  | Some s => negb (Qeq_bool s 0)
  | None => false
  end.

(** Numeric coercion in [currentTime - startTime]: [null] counts as 0. *)
Definition to_number (t : option Q) : Q :=
  match t with
  | Some s => s
  | None => 0%Q
  end.

(** [value || ""] on a string. *)
Definition or_empty (value : string) : string :=
  if String.eqb value "" then ""%string else value.

(** ** The exported payload *)

Module Payload.

(** One entry of [keystroke_timings]: [{key, press_time, release_time}]. *)
Record timing := mkTiming {
  key : string;
  press_time : Z;
  release_time : Z
}.

(** [{password, keystroke_timings, total_time}]; the list may be missing
    from an object handed to the comparator or the analyzer. *)
Record t := mk {
  password : string;
  keystroke_timings : option (list timing);
  total_time : Z
}.

(** [release_time - press_time] *)
Definition dwell (x : timing) : Z := release_time x - press_time x.

End Payload.

(** ** The recorder *)

Module KeyState.
(** The value stored in [keyStates]: [{startTime, index}]. *)
Record t := mk { startTime : Z; index : nat }.
End KeyState.

Module Recorder.

(** An element of the array [timings]. *)
Record entry := mkEntry {
  key : string;
  press_time : Z;
  release_time : option Z;          (* [null] until the key goes up *)
  index : nat
}.

(** The variables the closure [KeystrokeRecorder] captures. *)
Record state := mkState {
  timings : list entry;
  startTime : option Q;
  isRecording : bool;
  keyStates : gmap string KeyState.t
}.

(** The recorder as [KeystrokeRecorder(inputEl)] leaves it. *)
Definition init : state :=
  {| timings := []; startTime := None; isRecording := false; keyStates := ∅ |}.

(** Every function below takes [now], the value that its call of
    [getCurrentTime()] returns. *)

Definition startRecording (st : state) (now : Q) : state :=
  {| timings := [];
     startTime := Some now;
     isRecording := true;
     keyStates := ∅ |}.

Definition onKeyDown (st : state) (now : Q) (keyCode : string) : state :=
  if negb (isRecording st) then st
  else
    let currentTime := now in
    (* [if (!startTime) startTime = currentTime]: also taken when
       [startTime] is the number 0 *)
    let startTime' :=
      if negb (truthy (startTime st)) then Some currentTime else startTime st in
    let relativeTime := Math_round (currentTime - to_number startTime')%Q in
    match keyStates st !! keyCode with
    | Some _ =>
        (* key repeat: return, the assignment to [startTime] stays *)
        {| timings := timings st;
           startTime := startTime';
           isRecording := isRecording st;
           keyStates := keyStates st |}
    | None =>
        {| timings :=
             timings st ++
             [ {| key := keyCode;
                  press_time := relativeTime;
                  release_time := None;
                  index := length (timings st) |} ];
           startTime := startTime';
           isRecording := isRecording st;
           keyStates :=
             <[ keyCode := {| KeyState.startTime := relativeTime;
                              KeyState.index := length (timings st) |} ]>
               (keyStates st) |}
    end.

(** [timings[i].release_time = t] *)
Definition set_release (e : entry) (t : Z) : entry :=
  {| key := key e;
     press_time := press_time e;
     release_time := Some t;
     index := index e |}.

Definition onKeyUp (st : state) (now : Q) (keyCode : string) : state :=
  if negb (isRecording st) then st
  else
    let currentTime := now in
    let relativeTime := Math_round (currentTime - to_number (startTime st))%Q in
    match keyStates st !! keyCode with
    | Some keyState =>
        let timingIndex := KeyState.index keyState in
        let timings' :=
          match timings st !! timingIndex with
          | Some e =>
              match release_time e with
              | None => <[ timingIndex := set_release e relativeTime ]> (timings st)
              | Some _ => timings st
              end
          | None => timings st
          end in
        {| timings := timings';
           startTime := startTime st;
           isRecording := isRecording st;
           keyStates := delete keyCode (keyStates st) |}
    | None => st
    end.

(** The test of the [filter] in [exportPayload]:
    [t.release_time !== null && t.press_time !== null].  A [press_time] is
    the result of [Math.round] and is never [null]. *)
Definition is_valid (e : entry) : bool :=
  match release_time e with
  | Some _ => true
  | None => false
  end && true.

(** The function of the [map] in [exportPayload]; it runs on entries that
    passed [is_valid], whose [release_time] is a number. *)
Definition format (e : entry) : Payload.timing :=
  {| Payload.key := key e;
     Payload.press_time := press_time e;
     Payload.release_time :=
       match release_time e with
       | Some r => r
       | None => 0
       end |}.

(** [value] is [inputEl.value] at the call. *)
Definition exportPayload (st : state) (now : Q) (value : string) : Payload.t :=
  let endTime := now in
  let totalTime :=
    if truthy (startTime st)
    then Math_round (endTime - to_number (startTime st))%Q
    else 0 in
  let validTimings := List.map format (List.filter is_valid (timings st)) in
  {| Payload.password := or_empty value;
     Payload.keystroke_timings := Some validTimings;
     Payload.total_time := totalTime |}.

Definition stopRecording (st : state) (now : Q) (value : string)
  : state * Payload.t :=
  let st' :=
    {| timings := timings st;
       startTime := startTime st;
       isRecording := false;
       keyStates := keyStates st |} in
  (st', exportPayload st' now value).

Definition reset (st : state) : state :=
  {| timings := []; startTime := None; isRecording := false; keyStates := ∅ |}.

(** [getTimings]: a copy of the array. *)
Definition getTimings (st : state) : list entry := timings st.

(** *** Event sequences *)

(** What can happen to a recorder: the two listeners and the calls of the
    object it returns.  Each event carries the clock reading at which it
    happens; [Stop] and [Export] also carry the input's value. *)
Inductive event :=
| Start (now : Q)
| Stop (now : Q) (value : string)
| KeyDown (now : Q) (keyCode : string)
| KeyUp (now : Q) (keyCode : string)
| Export (now : Q) (value : string)
| Reset (now : Q).

Definition clock (ev : event) : Q :=
  match ev with
  | Start now | Stop now _ | KeyDown now _ | KeyUp now _
  | Export now _ | Reset now => now
  end.

Definition step (st : state) (ev : event) : state :=
  match ev with
  | Start now => startRecording st now
  | Stop now value => fst (stopRecording st now value)
  | KeyDown now k => onKeyDown st now k
  | KeyUp now k => onKeyUp st now k
  | Export now value => st
  | Reset _ => reset st
  end.

Definition run (st : state) (evs : list event) : state :=
  fold_left step evs st.

Inductive reachable : state -> Prop :=
| reachable_init : reachable init
| reachable_step st ev : reachable st -> reachable (step st ev).

End Recorder.

(** ** The pattern comparator *)

Module Comparator.

(** The [reason] strings of [compareKeystrokePatterns], in source order:
    "Datos insuficientes", "Contraseñas diferentes",
    "Longitudes muy diferentes", "No hay comparaciones válidas",
    "Patrón consistente", "Patrón inconsistente". *)
Inductive reason :=
| InsufficientData
| PasswordMismatch
| LengthMismatch
| NoValidComparisons
| Consistent
| Inconsistent.

(** The object returned; the two last fields exist on a scored result
    only. *)
Record result := mkResult {
  similar : bool;
  score : Q;
  why : reason;
  avgDifference : option Z;
  validComparisons : option nat
}.

(** [{ similar: false, score: 0, reason: r }] *)
Definition rejected (r : reason) : result :=
  {| similar := false; score := 0%Q; why := r;
     avgDifference := None; validComparisons := None |}.

(** The body of the loop over [i], on the pair
    [(totalDifference, validComparisons)]. *)
Definition loop_body (timings1 timings2 : list Payload.timing)
    (acc : Z * nat) (i : nat) : Z * nat :=
  match timings1 !! i, timings2 !! i with
  | Some t1, Some t2 =>
      if String.eqb (Payload.key t1) (Payload.key t2) then
        let dwell1 := Payload.release_time t1 - Payload.press_time t1 in
        let dwell2 := Payload.release_time t2 - Payload.press_time t2 in
        if (0 <? dwell1) && (0 <? dwell2) then
          let difference := Z.abs (dwell1 - dwell2) in
          (fst acc + difference, S (snd acc))
        else acc
      else acc
  | _, _ => acc          (* no such [i] below [minLength] *)
  end.

(** [for (let i = 0; i < minLength; i++)] from [(0, 0)]. *)
Definition dwell_loop (timings1 timings2 : list Payload.timing) : Z * nat :=
  let minLength := Nat.min (length timings1) (length timings2) in
  fold_left (loop_body timings1 timings2) (seq 0 minLength) (0, 0%nat).

Definition default_threshold : Q := 7 # 10.

Definition compareKeystrokePatterns (pattern1 pattern2 : Payload.t)
    (threshold : Q) : result :=
  match Payload.keystroke_timings pattern1,
        Payload.keystroke_timings pattern2 with
  | Some timings1, Some timings2 =>
      if negb (String.eqb (Payload.password pattern1)
                          (Payload.password pattern2))
      then rejected PasswordMismatch
      else if 2 <? Z.abs (Z.of_nat (length timings1)
                          - Z.of_nat (length timings2))
      then rejected LengthMismatch
      else
        let '(totalDifference, validComparisons) :=
          dwell_loop timings1 timings2 in
        if (validComparisons =? 0)%nat then rejected NoValidComparisons
        else
          let avgDifference :=
            (inject_Z totalDifference
             / inject_Z (Z.of_nat validComparisons))%Q in
          let maxExpectedDiff := 150%Q in
          let score := Qmax 0 (1 - avgDifference / maxExpectedDiff)%Q in
          {| similar := Qle_bool threshold score;
             score := (inject_Z (Math_round (score * 100)) / 100)%Q;
             why := if Qle_bool threshold score
                    then Consistent else Inconsistent;
             avgDifference := Some (Math_round avgDifference);
             validComparisons := Some validComparisons |}
  | _, _ => rejected InsufficientData
  end.

End Comparator.

(** ** The pattern analyzer *)

Module Analyzer.

(** The strings pushed on [anomalies], in source order:
    "Muchas teclas mantenidas demasiado tiempo",
    "Muchas teclas presionadas muy rápido",
    "Demasiadas teclas superpuestas". *)
Inductive anomaly :=
| KeysHeldTooLong
| KeysTooFast
| ExcessiveOverlap.

#[export] Instance anomaly_eq_dec : EqDecision anomaly.
Proof. solve_decision. Defined.

(** "Sin datos de timing" and "No hay dwell times válidos". *)
Inductive invalid_reason :=
| NoTimingData
| NoValidDwells.

Record stats := mkStats {
  avgDwell : Z;
  avgFlight : Z;
  totalKeys : nat;
  validDwells : nat;
  totalTime : Z
}.

(** Either [{valid: false, reason}] or [{valid, anomalies, stats}]. *)
Inductive result :=
| Invalid (reason : invalid_reason)
| Report (valid : bool) (anomalies : list anomaly) (s : stats).

(** The anomalies a result carries; none on [{valid: false, reason}]. *)
Definition anomalies_of (r : result) : list anomaly :=
  match r with
  | Invalid _ => []
  | Report _ anomalies _ => anomalies
  end.

(** Every [flight] the second loop computes, for [i] from 0 to
    [length - 2]: [timings[i + 1].press_time - timings[i].release_time]. *)
Fixpoint flights (timings : list Payload.timing) : list Z :=
  match timings with
  | t :: (t' :: _) as rest =>
      (Payload.press_time t' - Payload.release_time t) :: flights rest
  | _ => []
  end.

(** [xs.reduce((a, b) => a + b, 0)] *)
Definition sum (xs : list Z) : Z := fold_left Z.add xs 0.

(** [count > length * ratio] *)
Definition exceeds (count length : nat) (ratio : Q) : bool :=
  negb (Qle_bool (inject_Z (Z.of_nat count))
                 (inject_Z (Z.of_nat length) * ratio)%Q).

Definition analyzeKeystrokePattern (data : Payload.t) : result :=
  match Payload.keystroke_timings data with
  | None => Invalid NoTimingData
  | Some timings =>
      if (length timings =? 0)%nat then Invalid NoTimingData
      else
        let dwellTimes :=
          List.filter (fun dwell => 0 <? dwell)
                      (List.map Payload.dwell timings) in
        let flightTimes :=
          List.filter (fun flight => 0 <=? flight) (flights timings) in
        if (length dwellTimes =? 0)%nat then Invalid NoValidDwells
        else
          let avgDwell :=
            (inject_Z (sum dwellTimes)
             / inject_Z (Z.of_nat (length dwellTimes)))%Q in
          let avgFlight :=
            if (0 <? length flightTimes)%nat
            then (inject_Z (sum flightTimes)
                  / inject_Z (Z.of_nat (length flightTimes)))%Q
            else 0%Q in
          let longDwells :=
            length (List.filter (fun d => 500 <? d) dwellTimes) in
          let shortDwells :=
            length (List.filter (fun d => d <? 30) dwellTimes) in
          let negativeFlights :=
            length (List.filter (fun f => f <? 0) flightTimes) in
          let anomalies :=
            (if exceeds longDwells (length timings) (3 # 10)
             then [KeysHeldTooLong] else [])
            ++ (if exceeds shortDwells (length timings) (3 # 10)
                then [KeysTooFast] else [])
            ++ (if exceeds negativeFlights (length flightTimes) (1 # 2)
                then [ExcessiveOverlap] else []) in
          Report (length anomalies =? 0)%nat
                 anomalies
                 {| avgDwell := Math_round avgDwell;
                    avgFlight := Math_round avgFlight;
                    totalKeys := length timings;
                    validDwells := length dwellTimes;
                    totalTime := Payload.total_time data |}
  end.

End Analyzer.

(** ** The older revisions *)

Module Legacy.

(** The first revision of the recorder (the last one in the file): no
    recording flag, [Date.now()] as the clock, and [onKeyDown] looking at
    the last element of [timings] only. *)
Record entry := mkEntry {
  key : string;
  press_time : Z;
  release_time : option Z
}.

Record state := mkState {
  timings : list entry;
  t0 : option Z;
  lastUpTime : option Z
}.

Definition init : state :=
  {| timings := []; t0 := None; lastUpTime := None |}.

(** [!t0] is false on a number other than 0. *)
Definition is_set (t : option Z) : bool :=
  match t with
  | Some z => negb (z =? 0)
  | None => false
  end.

(** [now0] and [now] are the values of the two calls of [now()]; the first
    call happens only when [t0] is unset. *)
Definition onKeyDown (st : state) (now0 now : Z) (k : string) : state :=
  let t0' := if is_set (t0 st) then t0 st else Some now0 in
  let lastUpTime' := if is_set (t0 st) then lastUpTime st else t0' in
  let t := now - match t0' with Some z => z | None => 0 end in
  let repeated :=
    match last (timings st) with
    | Some l =>
        String.eqb (key l) k
        && match release_time l with None => true | Some _ => false end
    | None => false
    end in
  if repeated
  then {| timings := timings st; t0 := t0'; lastUpTime := lastUpTime' |}
  else {| timings :=
            timings st ++ [ {| key := k; press_time := t; release_time := None |} ];
          t0 := t0';
          lastUpTime := lastUpTime' |}.

(** The loop body of [compareKeystrokePatterns] in the revision headed
    "Versión mejorada": the dwell times are not tested. *)
Definition loop_body (timings1 timings2 : list Payload.timing)
    (acc : Z * nat) (i : nat) : Z * nat :=
  match timings1 !! i, timings2 !! i with
  | Some t1, Some t2 =>
      if String.eqb (Payload.key t1) (Payload.key t2) then
        let dwell1 := Payload.release_time t1 - Payload.press_time t1 in
        let dwell2 := Payload.release_time t2 - Payload.press_time t2 in
        let difference := Z.abs (dwell1 - dwell2) in
        (fst acc + difference, S (snd acc))
      else acc
  | _, _ => acc
  end.

End Legacy.

(** ** Vocabulary of the properties *)

Module Session.
Import Recorder.

(** Some entry of [l] for key [k] is open: its [release_time] is [null]. *)
Definition has_open (k : string) (l : list entry) : bool :=
  existsb (fun e => String.eqb (key e) k
                    && match release_time e with None => true | Some _ => false end)
          l.

(** The number of entries of [l] for key [k]. *)
Definition count_key (k : string) (l : list entry) : nat :=
  length (List.filter (fun e => String.eqb (key e) k) l).

(** A press or a release of a key other than [k]. *)
Definition other_key (k : string) (ev : event) : bool :=
  match ev with
  | KeyDown _ k' | KeyUp _ k' => negb (String.eqb k' k)
  | _ => false
  end.

(** The sequence of the key-repeat rule: three presses of [k] and its
    release, with events of other keys in between. *)
Definition held (k : string) (t1 t2 t3 t4 : Q) (o1 o2 o3 : list event)
  : list event :=
  [KeyDown t1 k] ++ o1 ++ [KeyDown t2 k] ++ o2 ++ [KeyDown t3 k] ++ o3
  ++ [KeyUp t4 k].

(** [keyStates] and the open entries of [timings] describe each other:
    a key of the map points at its open entry, and every open entry is
    pointed at by its key. *)
Definition open_index_inv (l : list entry) (m : gmap string KeyState.t) : Prop :=
  (forall k ks, m !! k = Some ks ->
     exists e, l !! KeyState.index ks = Some e
               /\ key e = k /\ release_time e = None)
  /\ (forall i e, l !! i = Some e -> release_time e = None ->
        exists ks, m !! key e = Some ks /\ KeyState.index ks = i).

(** Clock readings that never go back. *)
Fixpoint monotone_from (last : Q) (ts : list Q) : bool :=
  match ts with
  | [] => true
  | t :: rest => Qle_bool last t && monotone_from t rest
  end.

Definition clock_monotone (ts : list Q) : bool :=
  match ts with
  | [] => true
  | t :: rest => monotone_from t rest
  end.

(** A list of times in which no element is followed by a smaller one. *)
Definition nondecreasing (xs : list Z) : Prop :=
  forall i j x y, (i <= j)%nat -> xs !! i = Some x -> xs !! j = Some y -> x <= y.

(** The largest relative time the recorder can have stored when the clock
    last read [last]. *)
Definition elapsed (st : state) (last : Q) : Z :=
  if truthy (startTime st)
  then Math_round (last - to_number (startTime st))%Q
  else 0.

(** The press times are in order and none exceeds [elapsed]. *)
Definition press_times_ordered (st : state) (last : Q) : Prop :=
  StronglySorted Z.le (List.map press_time (timings st))
  /\ Forall (fun e => press_time e <= elapsed st last) (timings st).

(** The entries whose [release_time] is set, in the order of the list,
    as [{key, press_time, release_time}]. *)
Fixpoint released (l : list entry) : list Payload.timing :=
  match l with
  | [] => []
  | e :: rest =>
      match release_time e with
      | Some r => Payload.mkTiming (key e) (press_time e) r :: released rest
      | None => released rest
      end
  end.

(** The number of open entries. *)
Definition count_open (l : list entry) : nat :=
  length (List.filter
            (fun e => match release_time e with None => true | Some _ => false end)
            l).

(** A sample session: five presses, four of them released. *)
Definition five_presses : list event :=
  [ Start 1000;
    KeyDown 1010 "p"; KeyUp 1095 "p";
    KeyDown 1180 "a"; KeyUp 1260 "a";
    KeyDown 1330 "s"; KeyUp 1415 "s";
    KeyDown 1500 "t"; KeyUp 1570 "t";
    KeyDown 1640 "e" ].

(** The same session, stopped at clock 1700 with "paste" in the input. *)
Definition stopped_session : state :=
  fst (stopRecording (run init five_presses) 1700 "paste").

End Session.

Module Samples.

(** [count] exceeds [pct] percent of [total]. *)
Definition exceeds_percent (count total : nat) (pct : Z) : Prop :=
  pct * Z.of_nat total < 100 * Z.of_nat count.

(** The number of entries whose dwell time passes the test [p]. *)
Definition count_dwells (p : Z -> bool) (timings : list Payload.timing) : nat :=
  length (List.filter (fun t => p (Payload.dwell t)) timings).

(** The timing list of a payload, empty when the payload has none. *)
Definition timings_of (data : Payload.t) : list Payload.timing :=
  match Payload.keystroke_timings data with
  | Some timings => timings
  | None => []
  end.

(** The number of negative flight times among those the analyzer
    computes. *)
Definition negative_flights (timings : list Payload.timing) : nat :=
  length (List.filter (fun f => f <? 0) (Analyzer.flights timings)).

(** [n] entries for key "k" pressed every 1000 ms and held [d] ms. *)
Definition strokes (start : Z) (n : nat) (d : Z) : list Payload.timing :=
  List.map (fun i => Payload.mkTiming "k" (start + 1000 * Z.of_nat i)
                                      (start + 1000 * Z.of_nat i + d))
           (seq 0 n).

(** Ten entries, four of them held 600 ms, the others 100 ms. *)
Definition four_long : Payload.t :=
  {| Payload.password := "kkkkkkkkkk";
     Payload.keystroke_timings := Some (strokes 0 4 600 ++ strokes 4000 6 100);
     Payload.total_time := 10000 |}.

(** Ten entries, two of them held 600 ms. *)
Definition two_long : Payload.t :=
  {| Payload.password := "kkkkkkkkkk";
     Payload.keystroke_timings := Some (strokes 0 2 600 ++ strokes 2000 8 100);
     Payload.total_time := 10000 |}.

(** Two keys, the second pressed before the first is released. *)
Definition overlapping : Payload.t :=
  {| Payload.password := "ab";
     Payload.keystroke_timings :=
       Some [ Payload.mkTiming "a" 0 120; Payload.mkTiming "b" 80 200 ];
     Payload.total_time := 250 |}.

(** Password "abc" and no timing list. *)
Definition abc_bare : Payload.t :=
  {| Payload.password := "abc";
     Payload.keystroke_timings := None;
     Payload.total_time := 0 |}.

Definition abc : Payload.t :=
  {| Payload.password := "abc";
     Payload.keystroke_timings :=
       Some [ Payload.mkTiming "a" 0 90; Payload.mkTiming "b" 150 230;
              Payload.mkTiming "c" 300 395 ];
     Payload.total_time := 450 |}.

Definition xyz : Payload.t :=
  {| Payload.password := "xyz";
     Payload.keystroke_timings :=
       Some [ Payload.mkTiming "x" 0 90; Payload.mkTiming "y" 150 230;
              Payload.mkTiming "z" 300 395 ];
     Payload.total_time := 450 |}.

(** "abc" typed with a second entry whose release precedes its press. *)
Definition abc_corrupt : Payload.t :=
  {| Payload.password := "abc";
     Payload.keystroke_timings :=
       Some [ Payload.mkTiming "a" 0 80; Payload.mkTiming "b" 230 150;
              Payload.mkTiming "c" 300 400 ];
     Payload.total_time := 450 |}.

End Samples.

(** ** The recorder of the revision before *)

(** The recorder of the revision headed "Versión mejorada": [keyStates]
    maps a pressed key to [true], and [onKeyUp] searches [timings] from the
    end for the open entry of the key.  The entries are those of
    [Recorder]. *)
Module Previous.

Record state := mkState {
  timings : list Recorder.entry;
  startTime : option Q;
  isRecording : bool;
  keyStates : gmap string bool
}.

Definition init : state :=
  {| timings := []; startTime := None; isRecording := false; keyStates := ∅ |}.

Definition startRecording (st : state) (now : Q) : state :=
  {| timings := [];
     startTime := Some now;
     isRecording := true;
     keyStates := ∅ |}.

Definition onKeyDown (st : state) (now : Q) (keyCode : string) : state :=
  if negb (isRecording st) then st
  else
    let currentTime := now in
    let startTime' :=
      if negb (truthy (startTime st)) then Some currentTime else startTime st in
    let relativeTime := Math_round (currentTime - to_number startTime')%Q in
    match keyStates st !! keyCode with
    | Some _ =>
        {| timings := timings st;
           startTime := startTime';
           isRecording := isRecording st;
           keyStates := keyStates st |}
    | None =>
        {| timings :=
             timings st ++
             [ {| Recorder.key := keyCode;
                  Recorder.press_time := relativeTime;
                  Recorder.release_time := None;
                  Recorder.index := length (timings st) |} ];
           startTime := startTime';
           isRecording := isRecording st;
           keyStates := <[ keyCode := true ]> (keyStates st) |}
    end.

(** The loop [for (let i = timings.length - 1; i >= 0; i--)] with [i]
    candidates left: the last open entry for [keyCode] gets the release
    time, and the loop breaks. *)
Fixpoint release_last (l : list Recorder.entry) (i : nat)
    (keyCode : string) (t : Z) : list Recorder.entry :=
  match i with
  | O => l
  | S j =>
      match l !! j with
      | Some e =>
          if String.eqb (Recorder.key e) keyCode
             && match Recorder.release_time e with
                | None => true
                | Some _ => false
                end
          then <[ j := Recorder.set_release e t ]> l
          else release_last l j keyCode t
      | None => release_last l j keyCode t
      end
  end.

Definition onKeyUp (st : state) (now : Q) (keyCode : string) : state :=
  if negb (isRecording st) then st
  else
    let currentTime := now in
    let relativeTime := Math_round (currentTime - to_number (startTime st))%Q in
    {| timings :=
         release_last (timings st) (length (timings st)) keyCode relativeTime;
       startTime := startTime st;
       isRecording := isRecording st;
       keyStates := delete keyCode (keyStates st) |}.

(** The test of the [filter]: [t.release_time !== null]. *)
Definition is_released (e : Recorder.entry) : bool :=
  match Recorder.release_time e with
  | Some _ => true
  | None => false
  end.

Definition exportPayload (st : state) (now : Q) (value : string) : Payload.t :=
  let endTime := now in
  let totalTime :=
    if truthy (startTime st)
    then Math_round (endTime - to_number (startTime st))%Q
    else 0 in
  let validTimings :=
    List.map Recorder.format (List.filter is_released (timings st)) in
  {| Payload.password := or_empty value;
     Payload.keystroke_timings := Some validTimings;
     Payload.total_time := totalTime |}.

Definition stopRecording (st : state) (now : Q) (value : string)
  : state * Payload.t :=
  let st' :=
    {| timings := timings st;
       startTime := startTime st;
       isRecording := false;
       keyStates := keyStates st |} in
  (st', exportPayload st' now value).

Definition reset (st : state) : state :=
  {| timings := []; startTime := None; isRecording := false; keyStates := ∅ |}.

(** The same events as for [Recorder]. *)
Definition step (st : state) (ev : Recorder.event) : state :=
  match ev with
  | Recorder.Start now => startRecording st now
  | Recorder.Stop now value => fst (stopRecording st now value)
  | Recorder.KeyDown now k => onKeyDown st now k
  | Recorder.KeyUp now k => onKeyUp st now k
  | Recorder.Export now value => st
  | Recorder.Reset _ => reset st
  end.

Definition run (st : state) (evs : list Recorder.event) : state :=
  fold_left step evs st.

(** The same keys are marked as pressed. *)
Definition same_keys (m1 : gmap string bool) (m2 : gmap string KeyState.t) : Prop :=
  forall k, is_Some (m1 !! k) <-> is_Some (m2 !! k).

(** The two recorders hold the same entries, clock origin and flag, and
    the same keys are marked as pressed. *)
Definition agrees (st1 : state) (st2 : Recorder.state) : Prop :=
  timings st1 = Recorder.timings st2
  /\ startTime st1 = Recorder.startTime st2
  /\ isRecording st1 = Recorder.isRecording st2
  /\ same_keys (keyStates st1) (Recorder.keyStates st2).

End Previous.

(** ** The practice session *)

(** [handlePracticeSession] around a [Recorder]: the listeners it adds to
    the input, and the part of the [blur] listener that runs once the
    server has answered.  The page is the state of the two elements the
    listeners write to, either of which may be missing. *)
Module Practice.

(** The object [response.json()] yields; [success] and [can_register] by
    their truth value. *)
Record reply := mkReply {
  success : bool;
  can_register : bool;
  error : option string;
  message : option string
}.

(** [sendPracticeAttempt], given what the request comes to: the answer of
    the server, or none when [fetch] or [json] throws. *)
Definition sendPracticeAttempt (attemptData : Payload.t) (outcome : option reply)
  : reply :=
  match outcome with
  | Some result => result
  | None =>
      {| success := false;
         can_register := false;
         error := Some "Error de conexión"%string;
         message := None |}
  end.

(** [a || b] on two strings that may be missing. *)
Definition or_else (a b : option string) : option string :=
  match a with
  | Some s => if String.eqb s "" then b else a
  | None => b
  end.

(** The texts written to [practice-feedback], in source order. *)
Inductive notice :=
| Completed (attempts maxAttempts : nat)    (* Intento .. de .. completado *)
| Validated                                 (* ¡Patrón validado! ...       *)
| Restart                                   (* Patrón inconsistente. ...   *)
| Saved (attempts remaining : nat)          (* Intento .. guardado. ...    *)
| Failed (detail : option string).          (* Error: ..                   *)

Inductive colour :=
| Blue                                      (* '#007bff' *)
| Green
| Red.

(** What the feedback element shows; [None] is what the page had. *)
Record feedback := mkFeedback {
  textContent : option notice;
  color : option colour
}.

Record state := mkState {
  recorder : Recorder.state;
  attempts : nat;
  feedbackEl : option feedback;             (* [None]: no such element *)
  registerBtn : option bool                 (* its [disabled]; [None]: no button *)
}.

Definition maxAttempts : nat := 3.

Definition init (feedbackEl : option feedback) (registerBtn : option bool) : state :=
  {| recorder := Recorder.init;
     attempts := 0;
     feedbackEl := feedbackEl;
     registerBtn := registerBtn |}.

(** [if (feedbackEl) { feedbackEl.textContent = ..; feedbackEl.style.color = .. }] *)
Definition show (el : option feedback) (n : notice) (c : colour) : option feedback :=
  match el with
  | Some _ => Some {| textContent := Some n; color := Some c |}
  | None => None
  end.

(** The [focus] listener. *)
Definition onFocus (st : state) (now : Q) : state :=
  if negb (Recorder.isRecording (recorder st))
  then {| recorder := Recorder.startRecording (recorder st) now;
          attempts := attempts st;
          feedbackEl := feedbackEl st;
          registerBtn := registerBtn st |}
  else st.

(** The [blur] listener up to its [await]: the new state and the attempt
    handed to [sendPracticeAttempt], if any. *)
Definition onBlur (st : state) (now : Q) (value : string)
  : state * option Payload.t :=
  if Recorder.isRecording (recorder st) && (0 <? String.length value)%nat
  then
    let '(rec, attemptData) := Recorder.stopRecording (recorder st) now value in
    let attempts' := S (attempts st) in
    ({| recorder := rec;
        attempts := attempts';
        feedbackEl := show (feedbackEl st) (Completed attempts' maxAttempts) Blue;
        registerBtn := registerBtn st |},
     Some attemptData)
  else (st, None).

(** The [blur] listener after its [await], with the answer to the attempt
    it sent.  It reads [attempts] and the recorder as they are by then. *)
Definition onReply (st : state) (attemptData : Payload.t) (outcome : option reply)
  : state :=
  let result := sendPracticeAttempt attemptData outcome in
  if success result then
    if (maxAttempts <=? attempts st)%nat then
      if can_register result then
        {| recorder := recorder st;
           attempts := attempts st;
           feedbackEl := show (feedbackEl st) Validated Green;
           registerBtn :=
             match registerBtn st with
             | Some _ => Some false
             | None => None
             end |}
      else
        {| recorder := Recorder.reset (recorder st);
           attempts := 0;
           feedbackEl := show (feedbackEl st) Restart Red;
           registerBtn := registerBtn st |}
    else
      {| recorder := recorder st;
         attempts := attempts st;
         feedbackEl :=
           show (feedbackEl st)
                (Saved (attempts st) (maxAttempts - attempts st)) Green;
         registerBtn := registerBtn st |}
  else
    {| recorder := recorder st;
       attempts := attempts st;
       feedbackEl :=
         show (feedbackEl st)
              (Failed (or_else (error result) (message result))) Red;
       registerBtn := registerBtn st |}.

(** What happens to the input of a practice page.  [Reply] is the moment
    the answer to an earlier attempt arrives: the listener waits for it
    with [await], so any other event may come first, and the sequences
    below put no order on events and answers. *)
Inductive event :=
| Focus (now : Q)
| KeyDown (now : Q) (keyCode : string)
| KeyUp (now : Q) (keyCode : string)
| Blur (now : Q) (value : string)
| Reply (attemptData : Payload.t) (outcome : option reply).

Definition with_recorder (st : state) (r : Recorder.state) : state :=
  {| recorder := r;
     attempts := attempts st;
     feedbackEl := feedbackEl st;
     registerBtn := registerBtn st |}.

(** The state after an event and the attempt it sends, if any. *)
Definition step (st : state) (ev : event) : state * option Payload.t :=
  match ev with
  | Focus now => (onFocus st now, None)
  | KeyDown now k => (with_recorder st (Recorder.onKeyDown (recorder st) now k), None)
  | KeyUp now k => (with_recorder st (Recorder.onKeyUp (recorder st) now k), None)
  | Blur now value => onBlur st now value
  | Reply attemptData outcome => (onReply st attemptData outcome, None)
  end.

(** The state after a sequence of events and the attempts sent, in
    order. *)
Fixpoint run (st : state) (evs : list event) : state * list Payload.t :=
  match evs with
  | [] => (st, [])
  | ev :: rest =>
      let '(st', sent) := step st ev in
      let '(st'', sent') := run st' rest in
      (st'',
       match sent with
       | Some attemptData => attemptData :: sent'
       | None => sent'
       end)
  end.

(** An answer that allows the registration. *)
Definition accepting (ev : event) : bool :=
  match ev with
  | Reply _ (Some result) => success result && can_register result
  | _ => false
  end.

Definition is_focus (ev : event) : bool :=
  match ev with
  | Focus _ => true
  | _ => false
  end.

(** Three attempts of one key each, all answered, the last answer allowing
    the registration. *)
Definition three_attempts : list event :=
  [ Focus 1000; KeyDown 1010 "a"; KeyUp 1090 "a"; Blur 1200 "a";
    Reply (Payload.mk "a" (Some [Payload.mkTiming "a" 10 90]) 200)
          (Some (mkReply true false None None));
    Focus 2000; KeyDown 2010 "a"; KeyUp 2095 "a"; Blur 2200 "a";
    Reply (Payload.mk "a" (Some [Payload.mkTiming "a" 10 95]) 200)
          (Some (mkReply true false None None));
    Focus 3000; KeyDown 3010 "a"; KeyUp 3085 "a"; Blur 3200 "a";
    Reply (Payload.mk "a" (Some [Payload.mkTiming "a" 10 85]) 200)
          (Some (mkReply true true None None)) ].

End Practice.

(** ** Vocabulary of the further properties of the recorder *)

Module Window.
Import Recorder Session.

(** An event that starts nothing: a key event, an export or a stop. *)
Definition passive (ev : event) : bool :=
  match ev with
  | Start _ | Reset _ => false
  | _ => true
  end.

(** The number of [keydown] events of a sequence. *)
Definition presses (evs : list event) : nat :=
  length (List.filter
            (fun ev => match ev with KeyDown _ _ => true | _ => false end)
            evs).

(** Every entry carries its position in [index], and the [startTime] kept
    in [keyStates] is the [press_time] of the entry it points at. *)
Definition indexed (l : list entry) (m : gmap string KeyState.t) : Prop :=
  (forall i e, l !! i = Some e -> index e = i)
  /\ (forall k ks, m !! k = Some ks ->
        exists e, l !! KeyState.index ks = Some e
                  /\ press_time e = KeyState.startTime ks).

(** While recording, [startTime] holds a clock reading of the past. *)
Definition started (st : state) (last : Q) : Prop :=
  isRecording st = true -> exists s, startTime st = Some s /\ (s <= last)%Q.

(** No press time is negative and no release precedes its press. *)
Definition dwell_ok (e : entry) : Prop :=
  0 <= press_time e /\ forall r, release_time e = Some r -> press_time e <= r.

(** Clock readings above 0. *)
Definition all_positive (ts : list Q) : bool :=
  forallb (fun t => negb (Qle_bool t 0)) ts.

(** [startTime], once set, is not 0, and no release time exceeds
    [elapsed]. *)
Definition windowed (st : state) (last : Q) : Prop :=
  (forall s, startTime st = Some s -> truthy (Some s) = true)
  /\ Forall (fun e => forall r, release_time e = Some r -> r <= elapsed st last)
            (timings st).

(** The three facts that a clock that never goes back keeps true. *)
Definition timed (st : state) (last : Q) : Prop :=
  started st last /\ press_times_ordered st last /\ Forall dwell_ok (timings st).

(** Entries for the same key do not overlap: the earlier one is released,
    and not after the later one is pressed. *)
Definition separated (l : list entry) : Prop :=
  forall i j ei ej,
    (i < j)%nat -> l !! i = Some ei -> l !! j = Some ej -> key ei = key ej ->
    exists r, release_time ei = Some r /\ r <= press_time ej.

End Window.

(** ** Vocabulary of the further properties of the comparator *)

Module Pairs.

(** Position [i] holds, in both lists, an entry for the same key with a
    positive dwell time: the pair the loop of the comparator counts. *)
Definition counted (timings1 timings2 : list Payload.timing) (i : nat) : bool :=
  match timings1 !! i, timings2 !! i with
  | Some t1, Some t2 =>
      String.eqb (Payload.key t1) (Payload.key t2)
      && (0 <? Payload.dwell t1) && (0 <? Payload.dwell t2)
  | _, _ => false
  end.

(** Both payloads carry a timing list. *)
Definition both_present (pattern1 pattern2 : Payload.t) : Prop :=
  is_Some (Payload.keystroke_timings pattern1)
  /\ is_Some (Payload.keystroke_timings pattern2).

(** The difference of the lengths of the two timing lists. *)
Definition length_gap (pattern1 pattern2 : Payload.t) : Z :=
  Z.abs (Z.of_nat (length (Samples.timings_of pattern1))
         - Z.of_nat (length (Samples.timings_of pattern2))).

(** The same typing, started [c] ms later: every press and release time
    moved by [c]. *)
Definition delay_timing (c : Z) (t : Payload.timing) : Payload.timing :=
  {| Payload.key := Payload.key t;
     Payload.press_time := Payload.press_time t + c;
     Payload.release_time := Payload.release_time t + c |}.

Definition delay (c : Z) (p : Payload.t) : Payload.t :=
  {| Payload.password := Payload.password p;
     Payload.keystroke_timings :=
       match Payload.keystroke_timings p with
       | Some timings => Some (List.map (delay_timing c) timings)
       | None => None
       end;
     Payload.total_time := Payload.total_time p |}.

End Pairs.

(** * Properties *)

(** ** Rounding *)

Lemma Math_round_mono (x y : Q) : (x <= y)%Q -> Math_round x <= Math_round y.
Proof.
  intros Hxy. unfold Math_round. apply Qfloor_resp_le.
  apply Qplus_le_compat; [exact Hxy | apply Qle_refl].
Qed.

Lemma Math_round_self (x : Q) : Math_round (x - x)%Q = 0.
Proof.
  unfold Math_round.
  assert (H : (x - x + (1 # 2) == 1 # 2)%Q) by ring.
  rewrite H. reflexivity.
Qed.

(** ** The open entries and [keyStates] *)

Section open_index.
Import Recorder Session.

Lemma open_index_inv_onKeyDown st now k :
  open_index_inv (timings st) (keyStates st) ->
  open_index_inv (timings (onKeyDown st now k)) (keyStates (onKeyDown st now k)).
Proof.
  intros [Hfwd Hbwd]. unfold onKeyDown.
  destruct (isRecording st); simpl; [| by split].
  destruct (keyStates st !! k) as [ks0|] eqn:Hk; simpl; [by split |].
  split.
  - intros k' ks Hlook. destruct (decide (k = k')) as [<- | Hne].
    + rewrite lookup_insert_eq in Hlook. injection Hlook as <-. simpl.
      eexists. split.
      { rewrite lookup_app_r; [| lia]. by rewrite Nat.sub_diag. }
      by split.
    + rewrite lookup_insert_ne in Hlook; [| done].
      destruct (Hfwd _ _ Hlook) as (e & He & Hkey & Hrel).
      exists e. split; [| done].
      rewrite lookup_app_l; [done |]. by eapply lookup_lt_Some.
  - intros i e Hi Hrel.
    destruct (decide (i < length (timings st))%nat) as [Hlt | Hge].
    + rewrite lookup_app_l in Hi; [| done].
      destruct (Hbwd _ _ Hi Hrel) as (ks & Hks & Hidx).
      exists ks. split; [| done].
      rewrite lookup_insert_ne; [done |]. intros ->. congruence.
    + rewrite lookup_app_r in Hi; [| lia].
      destruct (i - length (timings st))%nat as [| n] eqn:Hd; simpl in Hi;
        [| by rewrite lookup_nil in Hi].
      injection Hi as <-. simpl. rewrite lookup_insert_eq.
      eexists. split; [reflexivity |]. simpl. lia.
Qed.

Lemma open_index_inv_onKeyUp st now k :
  open_index_inv (timings st) (keyStates st) ->
  open_index_inv (timings (onKeyUp st now k)) (keyStates (onKeyUp st now k)).
Proof.
  intros [Hfwd Hbwd]. unfold onKeyUp.
  destruct (isRecording st); simpl; [| by split].
  destruct (keyStates st !! k) as [ks0|] eqn:Hk; simpl; [| by split].
  destruct (Hfwd _ _ Hk) as (e0 & He0 & Hkey0 & Hrel0).
  rewrite He0, Hrel0.
  pose proof (lookup_lt_Some _ _ _ He0) as Hlt0.
  split.
  - intros k' ks Hlook.
    destruct (decide (k = k')) as [<- | Hne];
      [by rewrite lookup_delete_eq in Hlook |].
    rewrite lookup_delete_ne in Hlook; [| done].
    destruct (Hfwd _ _ Hlook) as (e & He & Hkey & Hrel).
    exists e. split; [| done].
    rewrite list_lookup_insert_ne; [done |].
    intros Heq. rewrite Heq in He0. congruence.
  - intros i e Hi Hrel.
    destruct (decide (KeyState.index ks0 = i)) as [<- | Hne].
    + rewrite list_lookup_insert_eq in Hi; [| done].
      injection Hi as <-. discriminate Hrel.
    + rewrite list_lookup_insert_ne in Hi; [| done].
      destruct (Hbwd _ _ Hi Hrel) as (ks & Hks & Hidx).
      exists ks. split; [| done].
      rewrite lookup_delete_ne; [done |].
      intros Heq. rewrite <- Heq in Hks. congruence.
Qed.

Lemma open_index_inv_empty : open_index_inv [] ∅.
Proof.
  split.
  - intros k ks Hk. by rewrite lookup_empty in Hk.
  - intros i e Hi. by rewrite lookup_nil in Hi.
Qed.

Lemma open_index_inv_step st ev :
  open_index_inv (timings st) (keyStates st) ->
  open_index_inv (timings (step st ev)) (keyStates (step st ev)).
Proof.
  intros Hinv. destruct ev.
  - apply open_index_inv_empty.
  - exact Hinv.
  - by apply open_index_inv_onKeyDown.
  - by apply open_index_inv_onKeyUp.
  - exact Hinv.
  - apply open_index_inv_empty.
Qed.

Lemma reachable_open_index st :
  reachable st -> open_index_inv (timings st) (keyStates st).
Proof.
  induction 1 as [| st ev _ IH].
  - apply open_index_inv_empty.
  - by apply open_index_inv_step.
Qed.

Lemma reachable_run st evs : reachable st -> reachable (run st evs).
Proof.
  revert st. induction evs as [| ev evs IH]; intros st Hst; simpl; [done |].
  apply IH. by constructor.
Qed.

(** A key has an open entry exactly when [keyStates] has it. *)
Lemma has_open_keyStates st k :
  open_index_inv (timings st) (keyStates st) ->
  has_open k (timings st) = true <-> is_Some (keyStates st !! k).
Proof.
  intros [Hfwd Hbwd]. unfold has_open. rewrite existsb_exists. split.
  - intros (e & Hin & Htest).
    apply andb_prop in Htest as [Hkey Hrel].
    apply String.eqb_eq in Hkey. destruct (release_time e) eqn:Hr; [done |].
    apply list_elem_of_In, list_elem_of_lookup in Hin as [i Hi].
    destruct (Hbwd _ _ Hi Hr) as (ks & Hks & _). subst k. by exists ks.
  - intros [ks Hks]. destruct (Hfwd _ _ Hks) as (e & He & Hkey & Hrel).
    exists e. split.
    + apply list_elem_of_In, list_elem_of_lookup. by eexists.
    + rewrite Hkey, Hrel, String.eqb_refl. reflexivity.
Qed.

(** A key without an open entry is not in [keyStates]. *)
Lemma closed_not_in_keyStates st k :
  reachable st -> has_open k (timings st) = false -> keyStates st !! k = None.
Proof.
  intros Hreach Hclosed.
  destruct (keyStates st !! k) as [ks |] eqn:Hks; [| done].
  assert (has_open k (timings st) = true) as Hopen.
  { apply has_open_keyStates; [by apply reachable_open_index | by exists ks]. }
  congruence.
Qed.

End open_index.

(** ** Key repeat and unmatched releases *)

Section key_events.
Import Recorder Session.

Lemma run_app st evs1 evs2 : run st (evs1 ++ evs2) = run (run st evs1) evs2.
Proof. unfold run. apply fold_left_app. Qed.

Lemma count_key_app k l1 l2 :
  count_key k (l1 ++ l2) = (count_key k l1 + count_key k l2)%nat.
Proof. unfold count_key. by rewrite List.filter_app, length_app. Qed.

(** Writing a release time does not change which key an entry is for. *)
Lemma count_key_set_release k l i e t :
  l !! i = Some e -> count_key k (<[ i := set_release e t ]> l) = count_key k l.
Proof.
  unfold count_key. revert i.
  induction l as [| x l IH]; intros [| i] Hi; simpl in *; try done.
  - injection Hi as ->. by destruct (String.eqb (key e) k).
  - destruct (String.eqb (key x) k); simpl; by rewrite (IH i Hi).
Qed.

Lemma onKeyDown_pressed st now k ks :
  keyStates st !! k = Some ks ->
  timings (onKeyDown st now k) = timings st
  /\ keyStates (onKeyDown st now k) = keyStates st
  /\ isRecording (onKeyDown st now k) = isRecording st.
Proof.
  intros Hk. unfold onKeyDown.
  destruct (isRecording st) eqn:Hrec; simpl; [| by rewrite Hrec].
  by rewrite Hk.
Qed.

Lemma onKeyDown_fresh st now k :
  isRecording st = true -> keyStates st !! k = None ->
  count_key k (timings (onKeyDown st now k)) = S (count_key k (timings st))
  /\ is_Some (keyStates (onKeyDown st now k) !! k)
  /\ isRecording (onKeyDown st now k) = true.
Proof.
  intros Hrec Hk. unfold onKeyDown. rewrite Hrec, Hk. simpl.
  split; [| split; [| done]].
  - rewrite count_key_app. unfold count_key at 2. simpl.
    rewrite String.eqb_refl. simpl. lia.
  - rewrite lookup_insert_eq. by eexists.
Qed.

Lemma onKeyUp_count st now k k' :
  count_key k (timings (onKeyUp st now k')) = count_key k (timings st).
Proof.
  unfold onKeyUp. destruct (isRecording st); simpl; [| done].
  destruct (keyStates st !! k') as [ks |]; simpl; [| done].
  destruct (timings st !! KeyState.index ks) as [e |] eqn:He; [| done].
  destruct (release_time e); [done |]. by apply count_key_set_release.
Qed.

(** An event on another key leaves alone the recording flag, the state of
    key [k] and the number of its entries. *)
Lemma other_key_step st ev k :
  other_key k ev = true ->
  isRecording (step st ev) = isRecording st
  /\ keyStates (step st ev) !! k = keyStates st !! k
  /\ count_key k (timings (step st ev)) = count_key k (timings st).
Proof.
  destruct ev as [| | now k' | now k' | |]; simpl; try done.
  - intros Hne%negb_true_iff. apply String.eqb_neq in Hne.
    unfold onKeyDown. destruct (isRecording st) eqn:Hrec; simpl; [| done].
    destruct (keyStates st !! k') eqn:Hk'; simpl; [done |].
    split; [done |]. split.
    + by rewrite lookup_insert_ne.
    + rewrite count_key_app. unfold count_key at 2. simpl.
      apply String.eqb_neq in Hne. rewrite Hne. simpl. lia.
  - intros Hne%negb_true_iff. apply String.eqb_neq in Hne.
    split; [| split; [| apply onKeyUp_count]].
    + unfold onKeyUp. destruct (isRecording st) eqn:Hrec; simpl; [| done].
      by destruct (keyStates st !! k').
    + unfold onKeyUp. destruct (isRecording st); simpl; [| done].
      destruct (keyStates st !! k'); simpl; [| done].
      by rewrite lookup_delete_ne.
Qed.

Lemma other_key_run st evs k :
  forallb (other_key k) evs = true ->
  isRecording (run st evs) = isRecording st
  /\ keyStates (run st evs) !! k = keyStates st !! k
  /\ count_key k (timings (run st evs)) = count_key k (timings st).
Proof.
  revert st. induction evs as [| ev evs IH]; intros st Hall; simpl; [done |].
  apply andb_prop in Hall as [Hev Hevs].
  destruct (IH (step st ev) Hevs) as (-> & -> & ->).
  by apply other_key_step.
Qed.

Lemma held_adds_one st k t1 t2 t3 t4 o1 o2 o3 :
  isRecording st = true -> keyStates st !! k = None ->
  forallb (other_key k) (o1 ++ o2 ++ o3) = true ->
  count_key k (timings (run st (held k t1 t2 t3 t4 o1 o2 o3)))
  = S (count_key k (timings st)).
Proof.
  intros Hrec Hk Hall.
  rewrite !forallb_app in Hall.
  apply andb_prop in Hall as [H1 H23]. apply andb_prop in H23 as [H2 H3].
  unfold held. rewrite !run_app. simpl.
  rewrite onKeyUp_count.
  destruct (onKeyDown_fresh st t1 k Hrec Hk) as (Hc1 & [ks1 Hs1] & Hr1).
  set (s1 := onKeyDown st t1 k) in *.
  destruct (other_key_run s1 o1 k H1) as (Hr2 & Hs2 & Hc2).
  set (s2 := run s1 o1) in *. rewrite Hs1 in Hs2.
  destruct (onKeyDown_pressed s2 t2 k ks1 Hs2) as (Ht3 & Hs3 & Hr3).
  set (s3 := onKeyDown s2 t2 k) in *.
  destruct (other_key_run s3 o2 k H2) as (Hr4 & Hs4 & Hc4).
  set (s4 := run s3 o2) in *. rewrite Hs3, Hs2 in Hs4.
  destruct (onKeyDown_pressed s4 t3 k ks1 Hs4) as (Ht5 & Hs5 & Hr5).
  set (s5 := onKeyDown s4 t3 k) in *.
  destruct (other_key_run s5 o3 k H3) as (Hr6 & Hs6 & Hc6).
  rewrite Hc6, Ht5, Hc4, Ht3, Hc2. exact Hc1.
Qed.

End key_events.

Section key_claims.
Import Recorder Session.

(** C3.  In a session reached by any sequence of events, a press of a key
    that has an open entry (its [release_time] still [null]) leaves
    [timings] and [keyStates] as they were.  While recording, if key [k]
    has no open entry, then Press(k), Press(k), Press(k), Release(k), with
    any presses and releases of other keys in between, adds exactly one
    entry for [k]; right after [start()] the session then holds exactly
    one entry for [k]. *)
Theorem key_repeat_suppressed (st : state) (k : string) :
  reachable st ->
  (has_open k (timings st) = true ->
   forall now,
     timings (onKeyDown st now k) = timings st
     /\ keyStates (onKeyDown st now k) = keyStates st)
  /\ (isRecording st = true -> has_open k (timings st) = false ->
      forall t1 t2 t3 t4 o1 o2 o3,
        forallb (other_key k) (o1 ++ o2 ++ o3) = true ->
        count_key k (timings (run st (held k t1 t2 t3 t4 o1 o2 o3)))
        = S (count_key k (timings st)))
  /\ (forall t0 t1 t2 t3 t4 o1 o2 o3,
        forallb (other_key k) (o1 ++ o2 ++ o3) = true ->
        count_key k (timings (run (startRecording st t0)
                                  (held k t1 t2 t3 t4 o1 o2 o3)))
        = 1%nat).
Proof.
  intros Hreach. pose proof (reachable_open_index st Hreach) as Hinv.
  split; [| split].
  - intros Hopen now.
    apply (has_open_keyStates st k Hinv) in Hopen as [ks Hks].
    destruct (onKeyDown_pressed st now k ks Hks) as (Ht & Hs & _).
    by split.
  - intros Hrec Hclosed t1 t2 t3 t4 o1 o2 o3 Hall.
    apply held_adds_one; [done | by apply closed_not_in_keyStates | done].
  - intros t0 t1 t2 t3 t4 o1 o2 o3 Hall.
    by rewrite held_adds_one.
Qed.

Lemma key_repeat_suppressed_witness :
  (timings (onKeyDown (run init [Start 1; KeyDown (5 # 2) "a"]) 40 "a")
   = timings (run init [Start 1; KeyDown (5 # 2) "a"])
   /\ keyStates (onKeyDown (run init [Start 1; KeyDown (5 # 2) "a"]) 40 "a")
      = keyStates (run init [Start 1; KeyDown (5 # 2) "a"]))
  /\ count_key "a"
       (timings (run (run init [Start 1; KeyDown 1 "c"])
                     (held "a" 2 30 60 90
                           [KeyDown 10 "b"] [KeyUp 50 "b"] [KeyUp 70 "c"])))
     = S (count_key "a" (timings (run init [Start 1; KeyDown 1 "c"]))).
Proof.
  split.
  - apply (key_repeat_suppressed (run init [Start 1; KeyDown (5 # 2) "a"]) "a").
    + apply reachable_run, reachable_init.
    + reflexivity.
  - apply (key_repeat_suppressed (run init [Start 1; KeyDown 1 "c"]) "a").
    + apply reachable_run, reachable_init.
    + reflexivity.
    + reflexivity.
    + reflexivity.
Defined.

(** C7.  In a session reached by any sequence of events, a release of a
    key that has no open entry changes nothing: [timings] is exactly what
    it was (no entry added, none modified), and so is the rest of the
    state. *)
Theorem unmatched_release_no_op (st : state) (now : Q) (k : string) :
  reachable st ->
  has_open k (timings st) = false ->
  timings (onKeyUp st now k) = timings st /\ onKeyUp st now k = st.
Proof.
  intros Hreach Hclosed.
  pose proof (closed_not_in_keyStates st k Hreach Hclosed) as Hk.
  assert (onKeyUp st now k = st) as ->; [| done].
  unfold onKeyUp. rewrite Hk. by destruct (isRecording st).
Qed.

Lemma unmatched_release_no_op_witness :
  timings (onKeyUp (run init [Start 1; KeyDown (5 # 2) "b";
                              KeyDown 4 "a"; KeyUp 90 "a"]) 120 "a")
  = timings (run init [Start 1; KeyDown (5 # 2) "b"; KeyDown 4 "a"; KeyUp 90 "a"])
  /\ onKeyUp (run init [Start 1; KeyDown (5 # 2) "b";
                        KeyDown 4 "a"; KeyUp 90 "a"]) 120 "a"
     = run init [Start 1; KeyDown (5 # 2) "b"; KeyDown 4 "a"; KeyUp 90 "a"].
Proof.
  apply (unmatched_release_no_op
           (run init [Start 1; KeyDown (5 # 2) "b"; KeyDown 4 "a"; KeyUp 90 "a"])
           120 "a").
  - apply reachable_run, reachable_init.
  - reflexivity.
Defined.

(** A release in a session that never saw a press leaves it without
    entries. *)
Example release_without_press :
  timings (run init [Start 1; KeyUp 12 "a"]) = [].
Proof. reflexivity. Qed.

(** Press, release, press, release of one key: two closed entries. *)
Example reopen_after_close :
  List.map format
    (timings (run init [Start 1; KeyDown 11 "a"; KeyUp 91 "a";
                        KeyDown 151 "a"; KeyUp 241 "a"]))
  = [ Payload.mkTiming "a" 10 90; Payload.mkTiming "a" 150 240 ].
Proof. reflexivity. Qed.

End key_claims.

(** ** Order of the press times *)

Section press_order.
Import Recorder Session.

Lemma nondecreasing_of_sorted (xs : list Z) :
  StronglySorted Z.le xs -> nondecreasing xs.
Proof.
  induction 1 as [| a l Hl IH Ha]; intros i j x y Hij Hi Hj.
  - by rewrite lookup_nil in Hi.
  - destruct i as [| i], j as [| j]; simpl in *; try lia.
    + injection Hi as ->. injection Hj as ->. lia.
    + injection Hi as ->. by eapply (Forall_lookup_1 _ l j y) in Ha.
    + eapply IH; [| done | done]. lia.
Qed.

Lemma sorted_snoc (xs : list Z) (y : Z) :
  StronglySorted Z.le xs -> Forall (fun x => x <= y) xs ->
  StronglySorted Z.le (xs ++ [y]).
Proof.
  intros Hxs Hle. apply StronglySorted_app_2; [| done | repeat constructor].
  intros x1 x2 Hx1 ->%list_elem_of_singleton.
  by eapply (proj1 (Forall_forall _ _) Hle).
Qed.

Lemma sorted_filter {A} (f : A -> Z) (p : A -> bool) (l : list A) :
  StronglySorted Z.le (List.map f l) ->
  StronglySorted Z.le (List.map f (List.filter p l)).
Proof.
  induction l as [| a l IH]; simpl; [done |].
  intros [Hall Hl]%StronglySorted_cons.
  destruct (p a); simpl; [| by apply IH].
  apply StronglySorted_cons. split; [| by apply IH].
  apply Forall_forall. intros x Hx.
  apply list_elem_of_In, in_map_iff in Hx as (b & <- & Hb).
  apply filter_In in Hb as [Hb _].
  apply (proj1 (Forall_forall _ _) Hall).
  apply list_elem_of_In, in_map_iff. by exists b.
Qed.

Lemma press_time_set_release l i e t :
  l !! i = Some e ->
  List.map press_time (<[ i := set_release e t ]> l) = List.map press_time l.
Proof.
  revert i. induction l as [| x l IH]; intros [| i] Hi; simpl in *; try done.
  - by injection Hi as ->.
  - by rewrite (IH i Hi).
Qed.

Lemma elapsed_mono st last now :
  (last <= now)%Q -> elapsed st last <= elapsed st now.
Proof.
  intros Hle. unfold elapsed. destruct (truthy (startTime st)); [| lia].
  apply Math_round_mono. unfold Qminus.
  apply Qplus_le_compat; [exact Hle | apply Qle_refl].
Qed.

Lemma ordered_later st last now :
  (last <= now)%Q -> press_times_ordered st last -> press_times_ordered st now.
Proof.
  intros Hle [Hs Hb]. split; [done |].
  eapply Forall_impl; [exact Hb |]. simpl. intros e He.
  pose proof (elapsed_mono st last now Hle). lia.
Qed.

Lemma ordered_empty st last : timings st = [] -> press_times_ordered st last.
Proof. intros Hnil. unfold press_times_ordered. rewrite Hnil. split; constructor. Qed.

Lemma ordered_onKeyDown st last now k :
  (last <= now)%Q -> press_times_ordered st last ->
  press_times_ordered (onKeyDown st now k) now.
Proof.
  intros Hle Hord. unfold onKeyDown.
  destruct (isRecording st) eqn:Hrec; simpl; [| by eapply ordered_later].
  destruct Hord as [Hs Hb].
  (* the relative time of this press bounds every stored press time *)
  set (start' := if negb (truthy (startTime st)) then Some now else startTime st).
  set (rel := Math_round (now - to_number start')%Q).
  assert (Forall (fun e => press_time e <= rel) (timings st)) as Hrel.
  { eapply Forall_impl; [exact Hb |]. simpl. intros e He.
    subst rel start'. unfold elapsed in He.
    destruct (truthy (startTime st)) eqn:Ht; simpl.
    - etrans; [exact He |]. apply Math_round_mono. unfold Qminus.
      apply Qplus_le_compat; [exact Hle | apply Qle_refl].
    - by rewrite Math_round_self. }
  assert (forall l m, elapsed (mkState l start' true m) now = rel) as Hel.
  { intros l m. unfold elapsed. simpl. subst rel start'.
    destruct (truthy (startTime st)) eqn:Ht; simpl; [by rewrite Ht |].
    rewrite Math_round_self. by destruct (negb (Qeq_bool now 0)). }
  destruct (keyStates st !! k); split; simpl.
  - done.
  - eapply Forall_impl; [exact Hrel |]. simpl. intros e He. by rewrite Hel.
  - rewrite map_app. simpl. apply sorted_snoc; [done |].
    apply Forall_forall. intros x Hx.
    apply list_elem_of_In, in_map_iff in Hx as (e & <- & He).
    apply list_elem_of_In in He.
    by apply (proj1 (Forall_forall _ _) Hrel).
  - apply Forall_app. split.
    + eapply Forall_impl; [exact Hrel |]. simpl. intros e He. by rewrite Hel.
    + repeat constructor. simpl. by rewrite Hel.
Qed.

Lemma ordered_onKeyUp st last now k :
  (last <= now)%Q -> press_times_ordered st last ->
  press_times_ordered (onKeyUp st now k) now.
Proof.
  intros Hle Hord. apply (ordered_later _ _ _ Hle) in Hord.
  unfold onKeyUp. destruct (isRecording st); simpl; [| done].
  destruct (keyStates st !! k) as [ks |]; [| done].
  destruct Hord as [Hs Hb].
  destruct (timings st !! KeyState.index ks) as [e |] eqn:He; [| by split].
  destruct (release_time e); [by split |].
  split; simpl.
  - by rewrite press_time_set_release.
  - apply Forall_insert; [done |]. simpl.
    by apply (Forall_lookup_1 _ _ _ _ Hb He).
Qed.

Lemma ordered_step st last ev :
  (last <= clock ev)%Q -> press_times_ordered st last ->
  press_times_ordered (step st ev) (clock ev).
Proof.
  intros Hle Hord. destruct ev; simpl in *.
  - by apply ordered_empty.
  - by apply (ordered_later _ _ _ Hle) in Hord.
  - by apply (ordered_onKeyDown st last).
  - by apply (ordered_onKeyUp st last).
  - by apply (ordered_later _ _ _ Hle) in Hord.
  - by apply ordered_empty.
Qed.

Lemma ordered_run evs : forall st last,
  monotone_from last (List.map clock evs) = true ->
  press_times_ordered st last ->
  exists last', press_times_ordered (run st evs) last'.
Proof.
  induction evs as [| ev evs IH]; intros st last Hmono Hord; simpl in *.
  - by exists last.
  - apply andb_prop in Hmono as [Hle%Qle_bool_iff Hrest].
    eapply IH; [exact Hrest |]. by apply (ordered_step st last).
Qed.

End press_order.

(** ** The exporter *)

Section export.
Import Recorder Session.

Lemma format_filter_released (l : list entry) :
  List.map format (List.filter is_valid l) = released l.
Proof.
  induction l as [| e l IH]; simpl; [done |].
  unfold is_valid at 1.
  destruct (release_time e) as [r |] eqn:Hr; simpl; [| exact IH].
  unfold format at 1. by rewrite Hr, IH.
Qed.

Lemma released_length (l : list entry) :
  (length (released l) + count_open l = length l)%nat.
Proof.
  unfold count_open. induction l as [| e l IH]; simpl; [done |].
  destruct (release_time e); simpl; lia.
Qed.

Lemma released_press_times (l : list entry) :
  List.map Payload.press_time (released l)
  = List.map press_time (List.filter is_valid l).
Proof.
  rewrite <- format_filter_released, map_map. by apply map_ext.
Qed.

Lemma Math_round_Qeq (x y : Q) : (x == y)%Q -> Math_round x = Math_round y.
Proof. intros Heq. unfold Math_round. by rewrite Heq. Qed.

(** C6.  The [keystroke_timings] of an export are the entries of the
    session whose [release_time] is set, each as
    [{key, press_time, release_time}], in the order of insertion and with
    nothing else; their number is the number of entries less the open
    ones, so five entries of which one is still open export as four. *)
Theorem export_filters_incomplete (st : state) (now : Q) (value : string) :
  Payload.keystroke_timings (exportPayload st now value)
  = Some (released (timings st))
  /\ (length (released (timings st)) + count_open (timings st)
      = length (timings st))%nat
  /\ (length (timings st) = 5%nat -> count_open (timings st) = 1%nat ->
      length (released (timings st)) = 4%nat).
Proof.
  pose proof (released_length (timings st)) as Hlen.
  split; [| split; [exact Hlen | lia]].
  unfold exportPayload. simpl. by rewrite format_filter_released.
Qed.

Lemma export_filters_incomplete_witness :
  length (timings (run init five_presses)) = 5%nat
  /\ Payload.keystroke_timings (exportPayload (run init five_presses) 1700 "paste")
     = Some (released (timings (run init five_presses)))
  /\ length (released (timings (run init five_presses))) = 4%nat.
Proof.
  split; [reflexivity |].
  destruct (export_filters_incomplete (run init five_presses) 1700 "paste")
    as (Hexp & _ & Hfour).
  split; [exact Hexp |].
  apply Hfour; reflexivity.
Defined.

(** The payload of that session, entry by entry. *)
Example five_presses_payload :
  exportPayload (run init five_presses) 1700 "paste"
  = {| Payload.password := "paste";
       Payload.keystroke_timings :=
         Some [ Payload.mkTiming "p" 10 95; Payload.mkTiming "a" 180 260;
                Payload.mkTiming "s" 330 415; Payload.mkTiming "t" 500 570 ];
       Payload.total_time := 700 |}.
Proof. reflexivity. Qed.

(** C10.  Along any sequence of events whose clock readings never go
    back, starting from a new recorder, the [press_time] values of
    [timings] are non-decreasing in list order, and so are those of the
    [keystroke_timings] of any export of that session. *)
Theorem press_times_nondecreasing (evs : list event) :
  clock_monotone (List.map clock evs) = true ->
  nondecreasing (List.map press_time (timings (run init evs)))
  /\ forall now value validTimings,
       Payload.keystroke_timings (exportPayload (run init evs) now value)
       = Some validTimings ->
       nondecreasing (List.map Payload.press_time validTimings).
Proof.
  intros Hmono.
  assert (StronglySorted Z.le (List.map press_time (timings (run init evs))))
    as Hsorted.
  { destruct evs as [| ev evs]; [constructor |].
    simpl in Hmono.
    destruct (ordered_run (ev :: evs) init (clock ev)) as [last' [Hs _]];
      [| by apply ordered_empty | exact Hs].
    simpl. rewrite Hmono, andb_true_r. apply Qle_bool_iff, Qle_refl. }
  split; [by apply nondecreasing_of_sorted |].
  intros now value validTimings Hexp.
  unfold exportPayload in Hexp. simpl in Hexp. injection Hexp as <-.
  apply nondecreasing_of_sorted.
  rewrite format_filter_released, released_press_times.
  by apply sorted_filter.
Qed.

Lemma press_times_nondecreasing_witness :
  clock_monotone (List.map clock five_presses) = true
  /\ nondecreasing (List.map press_time (timings (run init five_presses)))
  /\ nondecreasing (List.map Payload.press_time
                             (released (timings (run init five_presses)))).
Proof.
  split; [reflexivity |].
  destruct (press_times_nondecreasing five_presses) as [Hrec Hexp];
    [reflexivity |].
  split; [exact Hrec |].
  apply (Hexp 1700%Q "paste"%string).
  apply export_filters_incomplete.
Defined.

(** C1, as stated, fails: on a stopped session a later export carries a
    later [total_time], and the password is the value the input has at the
    call. *)
Lemma stopped_export_changes :
  isRecording stopped_session = false
  /\ Payload.total_time (exportPayload stopped_session 1700 "paste") = 700
  /\ Payload.total_time (exportPayload stopped_session 2500 "paste") = 1500
  /\ exportPayload stopped_session 1700 "paste"
     <> exportPayload stopped_session 2500 "paste"
  /\ snd (stopRecording stopped_session 1700 "paste")
     <> snd (stopRecording stopped_session 2500 "paste")
  /\ Payload.password (exportPayload stopped_session 1700 "paste")
     <> Payload.password (exportPayload stopped_session 1700 "pasta").
Proof.
  split; [vm_compute; reflexivity |].
  split; [vm_compute; reflexivity |].
  split; [vm_compute; reflexivity |].
  split; [intros H; apply (f_equal Payload.total_time) in H;
          vm_compute in H; discriminate |].
  split; [intros H; apply (f_equal Payload.total_time) in H;
          vm_compute in H; discriminate |].
  intros H. vm_compute in H. discriminate.
Qed.

(** C1, amended.  On a stopped session a repeated [stop()] returns the
    session as it was together with what [export()] returns, every export
    has the same [keystroke_timings], and two exports made with the same
    input value at the same clock reading are the same payload. *)
Theorem stopped_export_stable (st : state) (now now' : Q) (value value' : string) :
  isRecording st = false ->
  fst (stopRecording st now value) = st
  /\ snd (stopRecording st now value) = exportPayload st now value
  /\ Payload.keystroke_timings (exportPayload st now value)
     = Payload.keystroke_timings (exportPayload st now' value')
  /\ (value = value' -> (now == now')%Q ->
      exportPayload st now value = exportPayload st now' value').
Proof.
  intros Hstopped.
  assert (fst (stopRecording st now value) = st) as Hsame.
  { destruct st as [l s r m]. simpl in *. by subst r. }
  split; [exact Hsame |]. split; [| split].
  - change (snd (stopRecording st now value))
      with (exportPayload (fst (stopRecording st now value)) now value).
    by rewrite Hsame.
  - reflexivity.
  - intros <- Hclock. unfold exportPayload.
    destruct (truthy (startTime st)); [| reflexivity].
    f_equal. apply Math_round_Qeq. by rewrite Hclock.
Qed.

Lemma stopped_export_stable_witness :
  fst (stopRecording stopped_session 2500 "paste") = stopped_session
  /\ snd (stopRecording stopped_session 2500 "paste")
     = exportPayload stopped_session 2500 "paste"
  /\ Payload.keystroke_timings (exportPayload stopped_session 2500 "paste")
     = Payload.keystroke_timings (exportPayload stopped_session (5000 # 2) "paste")
  /\ exportPayload stopped_session 2500 "paste"
     = exportPayload stopped_session (5000 # 2) "paste".
Proof.
  destruct (stopped_export_stable stopped_session 2500 (5000 # 2) "paste" "paste")
    as (Hst & Hstop & Htimings & Hsame); [vm_compute; reflexivity |].
  split; [exact Hst |]. split; [exact Hstop |]. split; [exact Htimings |].
  apply Hsame; reflexivity.
Defined.

End export.

(** ** The comparator *)

Section comparator.
Import Comparator Samples.

(** A position whose body changes nothing can be left out of the loop. *)
Lemma fold_skip {A} (f : A -> nat -> A) (i : nat) (positions : list nat) :
  (forall acc, f acc i = acc) ->
  forall acc,
    fold_left f positions acc
    = fold_left f (List.filter (fun j => negb (j =? i)%nat) positions) acc.
Proof.
  intros Hskip. induction positions as [| j positions IH]; intros acc; simpl;
    [done |].
  destruct (Nat.eqb_spec j i) as [-> | Hne]; simpl.
  - by rewrite Hskip.
  - apply IH.
Qed.

(** C4.  At a position where both lists have an entry for the same key
    and the dwell time of either entry is at most 0, the loop body leaves
    the accumulated difference and the count of valid comparisons as they
    are, and the loop ends with what it computes when that position is
    left out. *)
Theorem nonpositive_dwell_skipped
    (timings1 timings2 : list Payload.timing) (i : nat) (t1 t2 : Payload.timing) :
  timings1 !! i = Some t1 -> timings2 !! i = Some t2 ->
  Payload.key t1 = Payload.key t2 ->
  Payload.dwell t1 <= 0 \/ Payload.dwell t2 <= 0 ->
  (forall acc, loop_body timings1 timings2 acc i = acc)
  /\ dwell_loop timings1 timings2
     = fold_left (loop_body timings1 timings2)
         (List.filter (fun j => negb (j =? i)%nat)
            (seq 0 (Nat.min (length timings1) (length timings2))))
         (0, 0%nat).
Proof.
  intros H1 H2 Hkey Hdwell.
  assert (forall acc, loop_body timings1 timings2 acc i = acc) as Hbody.
  { intros acc. unfold loop_body. rewrite H1, H2, Hkey, String.eqb_refl.
    unfold Payload.dwell in Hdwell.
    destruct Hdwell as [Hd | Hd].
    - by rewrite (proj2 (Z.ltb_ge _ _) Hd).
    - rewrite (proj2 (Z.ltb_ge _ _) Hd). by rewrite andb_false_r. }
  split; [exact Hbody |].
  unfold dwell_loop. by apply fold_skip.
Qed.

Lemma nonpositive_dwell_skipped_witness :
  (forall acc,
      loop_body (timings_of abc) (timings_of abc_corrupt) acc 1 = acc)
  /\ dwell_loop (timings_of abc) (timings_of abc_corrupt)
     = fold_left (loop_body (timings_of abc) (timings_of abc_corrupt))
         (List.filter (fun j => negb (j =? 1)%nat) (seq 0 3))
         (0, 0%nat).
Proof.
  apply (nonpositive_dwell_skipped
           (timings_of abc) (timings_of abc_corrupt) 1
           (Payload.mkTiming "b" 150 230) (Payload.mkTiming "b" 230 150)).
  - reflexivity.
  - reflexivity.
  - reflexivity.
  - right. vm_compute. discriminate.
Defined.

(** What the loop finds on the sample with the corrupted entry. *)
Example corrupt_entry_not_counted :
  dwell_loop (timings_of abc) (timings_of abc_corrupt) = (15, 2%nat).
Proof. reflexivity. Qed.

(** The older revision counts that pair. *)
Example legacy_counts_corrupt_entry :
  fold_left (Legacy.loop_body (timings_of abc) (timings_of abc_corrupt))
            (seq 0 3) (0, 0%nat)
  = (175, 3%nat).
Proof. reflexivity. Qed.

(** Comparing a list with itself: the difference stays 0. *)
Lemma loop_self_total (l : list Payload.timing) (positions : list nat) :
  forall acc, fst acc = 0 ->
    fst (fold_left (loop_body l l) positions acc) = 0
    /\ (snd acc <= snd (fold_left (loop_body l l) positions acc))%nat.
Proof.
  induction positions as [| i positions IH]; intros acc Hacc; simpl; [by split |].
  assert (fst (loop_body l l acc i) = 0
          /\ (snd acc <= snd (loop_body l l acc i))%nat) as [H0 Hn].
  { unfold loop_body. destruct (l !! i) as [x |]; [| by split].
    rewrite String.eqb_refl.
    destruct (0 <? Payload.release_time x - Payload.press_time x); simpl;
      [| by split].
    rewrite Z.sub_diag. simpl. split; lia. }
  destruct (IH _ H0) as [Hfst Hsnd]. split; [exact Hfst | lia].
Qed.

(** ... and every entry with a positive dwell time is counted. *)
Lemma loop_self_counts (l : list Payload.timing) (positions : list nat)
    (i : nat) (x : Payload.timing) :
  i ∈ positions -> l !! i = Some x -> 0 < Payload.dwell x ->
  forall acc, fst acc = 0 ->
    (snd acc < snd (fold_left (loop_body l l) positions acc))%nat.
Proof.
  intros Hin Hx Hpos.
  induction positions as [| j positions IH]; intros acc Hacc; simpl;
    [by apply elem_of_nil in Hin |].
  apply elem_of_cons in Hin as [<- | Hin].
  - assert (loop_body l l acc i = (0, S (snd acc))) as ->.
    { unfold loop_body. rewrite Hx, String.eqb_refl.
      unfold Payload.dwell in Hpos.
      rewrite (proj2 (Z.ltb_lt _ _) Hpos). simpl.
      by rewrite Z.sub_diag, Hacc. }
    destruct (loop_self_total l positions (0, S (snd acc)) eq_refl) as [_ Hle].
    simpl in Hle. lia.
  - destruct (loop_self_total l [j] acc Hacc) as [H0 Hle]. simpl in H0, Hle.
    specialize (IH Hin _ H0). lia.
Qed.

(** The score of an average difference of 0. *)
Lemma score_of_zero (n : Z) :
  (Qmax 0 (1 - inject_Z 0 / inject_Z n / 150) == 1)%Q.
Proof.
  assert ((1 - inject_Z 0 / inject_Z n / 150 == 1)%Q) as Heq.
  { unfold Qdiv. change (inject_Z 0) with 0%Q. ring. }
  rewrite Heq. apply Q.max_r. discriminate.
Qed.

(** C5.  A payload that has a timing list with at least one positive dwell
    time, compared with itself, scores exactly 1 and is similar for every
    threshold up to 1. *)
Theorem compare_self (p : Payload.t) (threshold : Q)
    (timings : list Payload.timing) (x : Payload.timing) :
  Payload.keystroke_timings p = Some timings ->
  x ∈ timings -> 0 < Payload.dwell x ->
  (threshold <= 1)%Q ->
  (score (compareKeystrokePatterns p p threshold) == 1)%Q
  /\ similar (compareKeystrokePatterns p p threshold) = true
  /\ why (compareKeystrokePatterns p p threshold) = Consistent.
Proof.
  intros Htimings Hx Hpos Hthr.
  unfold compareKeystrokePatterns.
  rewrite Htimings, String.eqb_refl, Z.sub_diag. simpl negb. cbn iota.
  change (2 <? Z.abs 0) with false. cbn iota.
  apply list_elem_of_lookup in Hx as [i Hi].
  pose proof (lookup_lt_Some _ _ _ Hi) as Hlt.
  unfold dwell_loop. rewrite Nat.min_id.
  destruct (loop_self_total timings (seq 0 (length timings)) (0, 0%nat) eq_refl)
    as [Htotal _].
  assert (0 < snd (fold_left (loop_body timings timings)
                             (seq 0 (length timings)) (0%Z, 0%nat)))%nat as Hvalid.
  { apply (loop_self_counts timings (seq 0 (length timings)) i x
                             ltac:(apply elem_of_seq; lia) Hi Hpos
                             (0, 0%nat) eq_refl). }
  destruct (fold_left (loop_body timings timings) (seq 0 (length timings))
                      (0, 0%nat)) as [totalDifference validComparisons].
  simpl in Htotal, Hvalid. subst totalDifference.
  destruct (Nat.eqb_spec validComparisons 0) as [-> | _]; [lia |].
  pose proof (score_of_zero (Z.of_nat validComparisons)) as Hscore.
  assert (Qle_bool threshold
            (Qmax 0 (1 - inject_Z 0 / inject_Z (Z.of_nat validComparisons) / 150))
          = true) as Hsim.
  { apply Qle_bool_iff. by rewrite Hscore. }
  rewrite Hsim. simpl. split; [| by split].
  rewrite (Math_round_Qeq _ 100); [reflexivity |].
  by rewrite Hscore.
Qed.

Lemma compare_self_witness :
  (score (compareKeystrokePatterns abc_corrupt abc_corrupt default_threshold) == 1)%Q
  /\ similar (compareKeystrokePatterns abc_corrupt abc_corrupt default_threshold)
     = true
  /\ why (compareKeystrokePatterns abc_corrupt abc_corrupt default_threshold)
     = Consistent.
Proof.
  apply (compare_self abc_corrupt default_threshold
           (timings_of abc_corrupt) (Payload.mkTiming "c" 300 400)).
  - reflexivity.
  - apply list_elem_of_In. right. right. left. reflexivity.
  - reflexivity.
  - discriminate.
Defined.

(** C9, as stated, fails: the passwords differ, yet a payload without a
    timing list is answered with "Datos insuficientes". *)
Lemma mismatch_without_timings :
  Payload.password abc_bare <> Payload.password xyz
  /\ compareKeystrokePatterns abc_bare xyz default_threshold
     = rejected InsufficientData.
Proof. split; [discriminate | reflexivity]. Qed.

(** C9, amended.  When both payloads carry a timing list and their
    passwords differ, the result is [{similar: false, score: 0}] with the
    reason "Contraseñas diferentes", whatever the two lists hold. *)
Theorem password_mismatch_rejected (pattern1 pattern2 : Payload.t)
    (threshold : Q) (timings1 timings2 : list Payload.timing) :
  Payload.keystroke_timings pattern1 = Some timings1 ->
  Payload.keystroke_timings pattern2 = Some timings2 ->
  Payload.password pattern1 <> Payload.password pattern2 ->
  why (compareKeystrokePatterns pattern1 pattern2 threshold) = PasswordMismatch
  /\ score (compareKeystrokePatterns pattern1 pattern2 threshold) = 0%Q
  /\ similar (compareKeystrokePatterns pattern1 pattern2 threshold) = false.
Proof.
  intros H1 H2 Hne. unfold compareKeystrokePatterns. rewrite H1, H2.
  apply String.eqb_neq in Hne. rewrite Hne. simpl. by repeat split.
Qed.

Lemma password_mismatch_rejected_witness :
  why (compareKeystrokePatterns abc xyz default_threshold) = PasswordMismatch
  /\ score (compareKeystrokePatterns abc xyz default_threshold) = 0%Q
  /\ similar (compareKeystrokePatterns abc xyz default_threshold) = false.
Proof.
  apply (password_mismatch_rejected abc xyz default_threshold
           (timings_of abc) (timings_of xyz)).
  - reflexivity.
  - reflexivity.
  - discriminate.
Defined.

End comparator.

(** ** The analyzer *)

Section analyzer.
Import Analyzer Samples.

(** The comparison [count > length * ratio] on integers. *)
Lemma exceeds_percent_iff (count total : nat) (pct : Z) :
  exceeds count total (pct # 100) = true <-> exceeds_percent count total pct.
Proof.
  unfold exceeds, exceeds_percent.
  rewrite negb_true_iff, <- not_true_iff_false, Qle_bool_iff.
  unfold Qle. simpl. lia.
Qed.

Lemma exceeds_30 (count total : nat) :
  exceeds count total (3 # 10) = true <-> exceeds_percent count total 30.
Proof.
  unfold exceeds, exceeds_percent.
  rewrite negb_true_iff, <- not_true_iff_false, Qle_bool_iff.
  unfold Qle. simpl. lia.
Qed.

(** Counting in [dwellTimes] is counting entries of [timings]. *)
Lemma dwellTimes_count (p : Z -> bool) (timings : list Payload.timing) :
  length (List.filter p
            (List.filter (fun dwell => 0 <? dwell)
                         (List.map Payload.dwell timings)))
  = count_dwells (fun d => (0 <? d) && p d) timings.
Proof.
  unfold count_dwells. induction timings as [| t timings IH]; simpl; [done |].
  destruct (0 <? Payload.dwell t); simpl; [| exact IH].
  destruct (p (Payload.dwell t)); simpl; by rewrite IH.
Qed.

Lemma count_dwells_ext (p q : Z -> bool) (timings : list Payload.timing) :
  (forall d, p d = q d) -> count_dwells p timings = count_dwells q timings.
Proof.
  intros Hpq. unfold count_dwells. f_equal.
  apply filter_ext. intros t. apply Hpq.
Qed.

(** No positive dwell time: nothing to count. *)
Lemma no_dwellTimes_count (p : Z -> bool) (timings : list Payload.timing) :
  length (List.filter (fun dwell => 0 <? dwell)
                      (List.map Payload.dwell timings)) = 0%nat ->
  count_dwells (fun d => (0 <? d) && p d) timings = 0%nat.
Proof.
  intros Hnone. rewrite <- dwellTimes_count.
  apply length_zero_iff_nil in Hnone. by rewrite Hnone.
Qed.

(** The anomalies of a report, by the three tests that produce them. *)
Lemma anomalies_In (a b c : bool) :
  let anomalies :=
    (if a then [KeysHeldTooLong] else [])
    ++ (if b then [KeysTooFast] else [])
    ++ (if c then [ExcessiveOverlap] else []) in
  (In KeysHeldTooLong anomalies <-> a = true)
  /\ (In KeysTooFast anomalies <-> b = true)
  /\ (In ExcessiveOverlap anomalies <-> c = true).
Proof. destruct a, b, c; simpl; intuition discriminate. Qed.

(** [flightTimes] holds no negative number. *)
Lemma no_negative_flight (timings : list Payload.timing) :
  List.filter (fun f => f <? 0)
              (List.filter (fun flight => 0 <=? flight) (flights timings))
  = [].
Proof.
  induction (flights timings) as [| f fs IH]; simpl; [done |].
  destruct (Z.leb_spec 0 f) as [Hle | Hlt]; simpl; [| exact IH].
  by rewrite (proj2 (Z.ltb_ge f 0) Hle).
Qed.

Lemma zero_never_exceeds (total : nat) : ~ exceeds_percent 0 total 30.
Proof. unfold exceeds_percent. lia. Qed.

(** How each anomaly of [analyzeKeystrokePattern] comes about. *)
Lemma anomalies_spec (data : Payload.t) :
  (In KeysHeldTooLong (anomalies_of (analyzeKeystrokePattern data))
   <-> exceeds_percent
         (count_dwells (fun d => (0 <? d) && (500 <? d)) (timings_of data))
         (length (timings_of data)) 30)
  /\ (In KeysTooFast (anomalies_of (analyzeKeystrokePattern data))
      <-> exceeds_percent
            (count_dwells (fun d => (0 <? d) && (d <? 30)) (timings_of data))
            (length (timings_of data)) 30)
  /\ (In ExcessiveOverlap (anomalies_of (analyzeKeystrokePattern data))
      <-> False).
Proof.
  unfold analyzeKeystrokePattern, timings_of.
  destruct (Payload.keystroke_timings data) as [timings |]; simpl;
    [| pose proof (zero_never_exceeds 0); unfold count_dwells; simpl; tauto].
  destruct (Nat.eqb_spec (length timings) 0) as [Hlen | Hlen]; simpl.
  { apply length_zero_iff_nil in Hlen. subst timings.
    pose proof (zero_never_exceeds 0). unfold count_dwells. simpl. tauto. }
  destruct (Nat.eqb_spec
              (length (List.filter (fun dwell => 0 <? dwell)
                                   (List.map Payload.dwell timings))) 0)
    as [Hnone | Hsome]; simpl.
  { rewrite !no_dwellTimes_count by exact Hnone.
    pose proof (zero_never_exceeds (length timings)). tauto. }
  rewrite no_negative_flight, !dwellTimes_count.
  match goal with
  | |- context [ (if ?a then [KeysHeldTooLong] else [])
                 ++ (if ?b then _ else []) ++ (if ?c then _ else []) ] =>
      destruct (anomalies_In a b c) as (Ha & Hb & Hc);
      assert (c = false) as Hnever
  end.
  { unfold exceeds. apply negb_false_iff, Qle_bool_iff.
    unfold Qle. simpl. lia. }
  rewrite Ha, Hb, Hc, Hnever, !exceeds_30. intuition discriminate.
Qed.

(** C8.  [analyzeKeystrokePattern] reports "Muchas teclas mantenidas
    demasiado tiempo" exactly when the number of entries with a dwell
    time above 500 ms exceeds 30% of the number of entries, and "Muchas
    teclas presionadas muy rápido" exactly when the number of dwell times
    it keeps (the positive ones) below 30 ms exceeds 30% of the number of
    entries.  With ten entries, four long ones are reported and two are
    not. *)
Theorem dwell_anomalies (data : Payload.t) :
  (In KeysHeldTooLong (anomalies_of (analyzeKeystrokePattern data))
   <-> exceeds_percent
         (count_dwells (fun d => 500 <? d) (timings_of data))
         (length (timings_of data)) 30)
  /\ (In KeysTooFast (anomalies_of (analyzeKeystrokePattern data))
      <-> exceeds_percent
            (count_dwells (fun d => (0 <? d) && (d <? 30)) (timings_of data))
            (length (timings_of data)) 30)
  /\ (length (timings_of data) = 10%nat ->
      count_dwells (fun d => 500 <? d) (timings_of data) = 4%nat ->
      In KeysHeldTooLong (anomalies_of (analyzeKeystrokePattern data)))
  /\ (length (timings_of data) = 10%nat ->
      count_dwells (fun d => 500 <? d) (timings_of data) = 2%nat ->
      ~ In KeysHeldTooLong (anomalies_of (analyzeKeystrokePattern data))).
Proof.
  destruct (anomalies_spec data) as (Hlong & Hshort & _).
  assert (count_dwells (fun d => (0 <? d) && (500 <? d)) (timings_of data)
          = count_dwells (fun d => 500 <? d) (timings_of data)) as Hcount.
  { apply count_dwells_ext. intros d.
    destruct (Z.ltb_spec 500 d); [| by rewrite andb_false_r].
    rewrite andb_true_r. apply Z.ltb_lt. lia. }
  rewrite Hcount in Hlong.
  split; [exact Hlong |]. split; [exact Hshort |]. split.
  - intros Hten Hfour. apply Hlong. rewrite Hten, Hfour.
    unfold exceeds_percent. lia.
  - intros Hten Htwo. rewrite Hlong, Hten, Htwo.
    unfold exceeds_percent. lia.
Qed.

Lemma dwell_anomalies_witness :
  In KeysHeldTooLong (anomalies_of (analyzeKeystrokePattern four_long))
  /\ ~ In KeysHeldTooLong (anomalies_of (analyzeKeystrokePattern two_long)).
Proof.
  split.
  - apply (dwell_anomalies four_long); reflexivity.
  - apply (dwell_anomalies two_long); reflexivity.
Defined.

(** The two sample payloads, analyzed. *)
Example four_long_report :
  analyzeKeystrokePattern four_long
  = Report false [KeysHeldTooLong]
      {| avgDwell := 300; avgFlight := 678; totalKeys := 10;
         validDwells := 10; totalTime := 10000 |}.
Proof. reflexivity. Qed.

Example two_long_report :
  analyzeKeystrokePattern two_long
  = Report true []
      {| avgDwell := 200; avgFlight := 789; totalKeys := 10;
         validDwells := 10; totalTime := 10000 |}.
Proof. reflexivity. Qed.

(** C2.  The one flight time of the sample [overlapping] is negative, one
    of one being more than 50%, and [analyzeKeystrokePattern] reports no
    anomaly: the negative flight times are counted in [flightTimes], which
    holds none. *)
Theorem overlap_not_reported :
  flights (timings_of overlapping) = [-40]
  /\ exceeds_percent (negative_flights (timings_of overlapping))
                     (length (flights (timings_of overlapping))) 50
  /\ analyzeKeystrokePattern overlapping
     = Report true []
         {| avgDwell := 120; avgFlight := 0; totalKeys := 2;
            validDwells := 2; totalTime := 250 |}.
Proof.
  split; [reflexivity |]. split; [| reflexivity].
  unfold exceeds_percent. vm_compute. reflexivity.
Qed.

(** No payload is ever reported with "Demasiadas teclas superpuestas". *)
Lemma overlap_never_reported (data : Payload.t) :
  existsb (fun a => bool_decide (a = ExcessiveOverlap))
          (anomalies_of (analyzeKeystrokePattern data)) = false.
Proof.
  apply not_true_iff_false. intros Hex.
  apply existsb_exists in Hex as (a & Hin & Ha).
  apply bool_decide_eq_true in Ha. subst a.
  by apply (anomalies_spec data) in Hin.
Qed.

End analyzer.

(** ** The older recorder *)

Section legacy.
Import Legacy.

(** A key held down repeats: one entry. *)
Example legacy_repeat_suppressed :
  List.map key
    (timings (onKeyDown (onKeyDown (onKeyDown init 5000 5000 "a")
                                   0 5030 "a") 0 5060 "a"))
  = ["a"%string].
Proof. reflexivity. Qed.

(** With another key pressed in between, the older [onKeyDown] records
    the held key a second time: it looks at the last entry only. *)
Example legacy_repeat_after_other_key :
  List.map key
    (timings (onKeyDown (onKeyDown (onKeyDown init 5000 5000 "a")
                                   0 5030 "b") 0 5060 "a"))
  = ["a"%string; "b"%string; "a"%string].
Proof. reflexivity. Qed.

End legacy.

(** * Further properties *)

(** ** Entries, positions and open keys *)

Section entries.
Import Recorder Session Window.

(** X1.  Within a session, a key has at most one open entry: two open entries
    for the same key are the same entry. *)
Theorem one_open_entry_per_key (st : state) (i j : nat) (e1 e2 : entry) :
  reachable st ->
  timings st !! i = Some e1 -> timings st !! j = Some e2 ->
  release_time e1 = None -> release_time e2 = None ->
  key e1 = key e2 ->
  i = j.
Proof.
  intros Hreach H1 H2 Hr1 Hr2 Hkey.
  destruct (reachable_open_index st Hreach) as [_ Hbwd].
  destruct (Hbwd _ _ H1 Hr1) as (ks1 & Hk1 & <-).
  destruct (Hbwd _ _ H2 Hr2) as (ks2 & Hk2 & <-).
  rewrite Hkey in Hk1. congruence.
Qed.

Lemma one_open_entry_per_key_witness :
  timings (run init [Start 100; KeyDown 110 "a"; KeyDown 120 "b"]) !! 1%nat
  = Some (mkEntry "b" 20 None 1)
  /\ 1%nat = 1%nat.
Proof.
  split; [reflexivity |].
  apply (one_open_entry_per_key
           (run init [Start 100; KeyDown 110 "a"; KeyDown 120 "b"])
           1 1 (mkEntry "b" 20 None 1) (mkEntry "b" 20 None 1)).
  - apply reachable_run, reachable_init.
  - reflexivity.
  - reflexivity.
  - reflexivity.
  - reflexivity.
  - reflexivity.
Defined.

Lemma indexed_empty : indexed [] ∅.
Proof.
  split.
  - intros i e Hi. by rewrite lookup_nil in Hi.
  - intros k ks Hk. by rewrite lookup_empty in Hk.
Qed.

Lemma indexed_onKeyDown st now k :
  indexed (timings st) (keyStates st) ->
  indexed (timings (onKeyDown st now k)) (keyStates (onKeyDown st now k)).
Proof.
  intros [Hpos Hmap]. unfold onKeyDown.
  destruct (isRecording st); simpl; [| by split].
  destruct (keyStates st !! k) as [ks0|] eqn:Hk; simpl; [by split |].
  split.
  - intros i e Hi.
    destruct (decide (i < length (timings st))%nat) as [Hlt | Hge].
    + rewrite lookup_app_l in Hi; [by apply Hpos | done].
    + rewrite lookup_app_r in Hi; [| lia].
      destruct (i - length (timings st))%nat as [| n] eqn:Hd; simpl in Hi;
        [| by rewrite lookup_nil in Hi].
      injection Hi as <-. simpl. lia.
  - intros k' ks Hlook. destruct (decide (k = k')) as [<- | Hne].
    + rewrite lookup_insert_eq in Hlook. injection Hlook as <-. simpl.
      eexists. split.
      { rewrite lookup_app_r; [| lia]. by rewrite Nat.sub_diag. }
      reflexivity.
    + rewrite lookup_insert_ne in Hlook; [| done].
      destruct (Hmap _ _ Hlook) as (e & He & Hpress).
      exists e. split; [| done].
      rewrite lookup_app_l; [done |]. by eapply lookup_lt_Some.
Qed.

Lemma indexed_onKeyUp st now k :
  indexed (timings st) (keyStates st) ->
  indexed (timings (onKeyUp st now k)) (keyStates (onKeyUp st now k)).
Proof.
  intros [Hpos Hmap]. unfold onKeyUp.
  destruct (isRecording st); simpl; [| by split].
  destruct (keyStates st !! k) as [ks0|] eqn:Hk; simpl; [| by split].
  assert (forall t e0, timings st !! KeyState.index ks0 = Some e0 ->
            indexed (<[ KeyState.index ks0 := set_release e0 t ]> (timings st))
                    (delete k (keyStates st))) as Hset.
  { intros t e0 He0. pose proof (lookup_lt_Some _ _ _ He0) as Hlt0. split.
    - intros i e Hi. destruct (decide (KeyState.index ks0 = i)) as [<- | Hne].
      + rewrite list_lookup_insert_eq in Hi; [| done].
        injection Hi as <-. simpl. by apply Hpos.
      + rewrite list_lookup_insert_ne in Hi; [| done]. by apply Hpos.
    - intros k' ks Hlook.
      destruct (decide (k = k')) as [<- | Hne];
        [by rewrite lookup_delete_eq in Hlook |].
      rewrite lookup_delete_ne in Hlook; [| done].
      destruct (Hmap _ _ Hlook) as (e & He & Hpress).
      destruct (decide (KeyState.index ks0 = KeyState.index ks)) as [Heq | Hne'].
      + rewrite <- Heq in *. rewrite He0 in He. injection He as ->.
        exists (set_release e t). split; [| done].
        by rewrite list_lookup_insert_eq.
      + exists e. split; [| done]. by rewrite list_lookup_insert_ne. }
  assert (indexed (timings st) (delete k (keyStates st))) as Hsame.
  { split; [done |]. intros k' ks Hlook.
    destruct (decide (k = k')) as [<- | Hne];
      [by rewrite lookup_delete_eq in Hlook |].
    rewrite lookup_delete_ne in Hlook; [| done]. by apply (Hmap k'). }
  destruct (timings st !! KeyState.index ks0) as [e0 |] eqn:He0; [| done].
  destruct (release_time e0); [done |]. by apply Hset.
Qed.

Lemma reachable_indexed st :
  reachable st -> indexed (timings st) (keyStates st).
Proof.
  induction 1 as [| st ev _ IH]; [apply indexed_empty |].
  destruct ev.
  - apply indexed_empty.
  - exact IH.
  - by apply indexed_onKeyDown.
  - by apply indexed_onKeyUp.
  - exact IH.
  - apply indexed_empty.
Qed.

(** X2.  The [index] of an entry is its position in [timings], and the state
    kept for a pressed key points at the entry of that key, still open,
    and repeats its press time. *)
Theorem index_is_position (st : state) :
  reachable st ->
  (forall i e, timings st !! i = Some e -> index e = i)
  /\ (forall k ks, keyStates st !! k = Some ks ->
        exists e, timings st !! KeyState.index ks = Some e
                  /\ key e = k /\ release_time e = None
                  /\ press_time e = KeyState.startTime ks
                  /\ index e = KeyState.index ks).
Proof.
  intros Hreach.
  destruct (reachable_indexed st Hreach) as [Hpos Hmap].
  destruct (reachable_open_index st Hreach) as [Hfwd _].
  split; [exact Hpos |].
  intros k ks Hk.
  destruct (Hfwd _ _ Hk) as (e & He & Hkey & Hrel).
  destruct (Hmap _ _ Hk) as (e' & He' & Hpress).
  rewrite He in He'. injection He' as <-.
  exists e. repeat split; try done. by apply Hpos.
Qed.

Lemma index_is_position_witness :
  (forall i e, timings (run init five_presses) !! i = Some e -> index e = i)
  /\ (forall k ks, keyStates (run init five_presses) !! k = Some ks ->
        exists e, timings (run init five_presses) !! KeyState.index ks = Some e
                  /\ key e = k /\ release_time e = None
                  /\ press_time e = KeyState.startTime ks
                  /\ index e = KeyState.index ks).
Proof.
  apply (index_is_position (run init five_presses)).
  apply reachable_run, reachable_init.
Defined.

End entries.

(** ** Releases, stopped sessions and the number of entries *)

Section releases.
Import Recorder Session Window.



Lemma stopped_step st ev :
  isRecording st = false -> passive ev = true -> step st ev = st.
Proof.
  intros Hstopped Hpassive.
  destruct ev as [| now value | now k | now k | |]; simpl in *; try done.
  - destruct st as [l s r m]. simpl in *. by subst r.
  - unfold onKeyDown. by rewrite Hstopped.
  - unfold onKeyUp. by rewrite Hstopped.
Qed.

(** X4.  A recorder that is not recording (never started, stopped or reset)
    keeps its state through any key events, exports and stops: what it
    exports afterwards has the entries it had before. *)
Theorem stopped_recorder_ignores_keys (st : state) (evs : list event) :
  isRecording st = false -> forallb passive evs = true ->
  run st evs = st
  /\ forall now value,
       Payload.keystroke_timings (exportPayload (run st evs) now value)
       = Payload.keystroke_timings (snd (stopRecording st now value)).
Proof.
  intros Hstopped Hall.
  assert (run st evs = st) as Hrun.
  { induction evs as [| ev evs IH]; simpl; [done |].
    apply andb_prop in Hall as [Hev Hevs].
    rewrite (stopped_step st ev Hstopped Hev). by apply IH. }
  split; [exact Hrun |]. intros now value. by rewrite Hrun.
Qed.

Lemma stopped_recorder_ignores_keys_witness :
  run stopped_session [KeyDown 1800 "x"; KeyUp 1900 "x"; Stop 2000 "pastex"]
  = stopped_session.
Proof.
  apply (stopped_recorder_ignores_keys stopped_session
           [KeyDown 1800 "x"; KeyUp 1900 "x"; Stop 2000 "pastex"]).
  - vm_compute. reflexivity.
  - reflexivity.
Defined.

Lemma step_length st ev :
  (length (timings (step st ev))
   <= length (timings st) + presses [ev])%nat.
Proof.
  destruct ev as [| | now k | now k | |]; simpl; try lia.
  - unfold onKeyDown. destruct (isRecording st); simpl; [| lia].
    destruct (keyStates st !! k); simpl; [lia |].
    rewrite length_app. simpl. unfold presses. simpl. lia.
  - unfold onKeyUp. destruct (isRecording st); simpl; [| lia].
    destruct (keyStates st !! k) as [ks |]; simpl; [| lia].
    destruct (timings st !! KeyState.index ks) as [e |]; [| lia].
    destruct (release_time e); [lia |]. rewrite length_insert. lia.
Qed.

(** X5.  Entries come from key presses only: a recorder holds, and exports, no
    more entries than it has seen [keydown] events. *)
Theorem entries_bounded_by_presses (evs : list event) (now : Q) (value : string) :
  (length (timings (run init evs)) <= presses evs)%nat
  /\ (length (Samples.timings_of (exportPayload (run init evs) now value))
      <= presses evs)%nat.
Proof.
  assert (forall st, (length (timings (run st evs))
                      <= length (timings st) + presses evs)%nat) as Hgen.
  { induction evs as [| ev evs IH]; intros st; simpl; [lia |].
    specialize (IH (step st ev)). pose proof (step_length st ev) as Hstep.
    unfold presses in *. simpl in *.
    destruct ev; simpl in *; lia. }
  specialize (Hgen init). simpl in Hgen.
  split; [exact Hgen |].
  unfold exportPayload, Samples.timings_of. simpl.
  rewrite length_map.
  pose proof (filter_length_le is_valid (timings (run init evs))). lia.
Qed.

End releases.

(** ** Times under a clock that never goes back *)

Section window.
Import Recorder Session Window.

Lemma Math_round_nonneg (x : Q) : (0 <= x)%Q -> 0 <= Math_round x.
Proof. intros Hx. apply (Math_round_mono 0 x Hx). Qed.

Lemma Qminus_nonneg (s now : Q) : (s <= now)%Q -> (0 <= now - s)%Q.
Proof.
  intros Hle. apply (Qplus_le_l _ _ s). ring_simplify. exact Hle.
Qed.

Lemma started_later st last now :
  (last <= now)%Q -> started st last -> started st now.
Proof.
  intros Hle Hst Hrec. destruct (Hst Hrec) as (s & Hs & Hsl).
  exists s. split; [done |]. exact (Qle_trans _ _ _ Hsl Hle).
Qed.

Lemma started_step st last ev :
  (last <= clock ev)%Q -> started st last -> started (step st ev) (clock ev).
Proof.
  intros Hle Hst. destruct ev as [now | now v | now k | now k | now v | now];
    simpl in *.
  - intros _. exists now. split; [done | apply Qle_refl].
  - intros Hrec. discriminate Hrec.
  - unfold onKeyDown.
    destruct (isRecording st) eqn:Hrec; simpl; [| by apply (started_later st last)].
    destruct (Hst Hrec) as (s & Hs & Hsl).
    assert (exists s', (if negb (truthy (startTime st))
                        then Some now else startTime st) = Some s'
                       /\ (s' <= now)%Q) as Hnew.
    { destruct (truthy (startTime st)); simpl.
      - exists s. split; [done |]. exact (Qle_trans _ _ _ Hsl Hle).
      - exists now. split; [done | apply Qle_refl]. }
    destruct (keyStates st !! k); intros _; exact Hnew.
  - unfold onKeyUp.
    destruct (isRecording st) eqn:Hrec; simpl; [| by apply (started_later st last)].
    destruct (keyStates st !! k); [| by apply (started_later st last)].
    intros _. destruct (Hst Hrec) as (s & Hs & Hsl).
    exists s. split; [done |]. exact (Qle_trans _ _ _ Hsl Hle).
  - by apply (started_later st last).
  - intros Hrec. discriminate Hrec.
Qed.

Lemma dwell_ok_step st last ev :
  (last <= clock ev)%Q ->
  started st last -> press_times_ordered st last ->
  Forall dwell_ok (timings st) -> Forall dwell_ok (timings (step st ev)).
Proof.
  intros Hle Hst [_ Hbound] Hok.
  destruct ev as [now | now v | now k | now k | now v | now]; simpl in *;
    try done; try constructor.
  - unfold onKeyDown. destruct (isRecording st) eqn:Hrec; simpl; [| done].
    destruct (keyStates st !! k); simpl; [done |].
    apply Forall_app. split; [done |]. repeat constructor; simpl; [| done].
    destruct (Hst Hrec) as (s & Hs & Hsl). rewrite Hs.
    destruct (truthy (Some s)); simpl.
    + apply Math_round_nonneg, Qminus_nonneg. exact (Qle_trans _ _ _ Hsl Hle).
    + by rewrite Math_round_self.
  - unfold onKeyUp. destruct (isRecording st) eqn:Hrec; simpl; [| done].
    destruct (keyStates st !! k) as [ks |]; simpl; [| done].
    destruct (timings st !! KeyState.index ks) as [e |] eqn:He; [| done].
    destruct (release_time e); [done |].
    apply Forall_insert; [done |].
    pose proof (Forall_lookup_1 _ _ _ _ Hok He) as [Hpress _].
    pose proof (Forall_lookup_1 _ _ _ _ Hbound He) as Hel. simpl in Hel.
    split; simpl; [done |]. intros r [= <-].
    destruct (Hst Hrec) as (s & Hs & Hsl).
    unfold elapsed in Hel. rewrite Hs in *. simpl.
    destruct (truthy (Some s)).
    + etrans; [exact Hel |]. apply Math_round_mono. unfold Qminus.
      apply Qplus_le_compat; [exact Hle | apply Qle_refl].
    + etrans; [exact Hel |]. apply Math_round_nonneg, Qminus_nonneg.
      exact (Qle_trans _ _ _ Hsl Hle).
Qed.

Lemma timed_run evs : forall st last rest,
  monotone_from last (List.map clock evs ++ rest) = true ->
  timed st last ->
  exists last', timed (run st evs) last' /\ monotone_from last' rest = true.
Proof.
  induction evs as [| ev evs IH]; intros st last rest Hmono Ht; simpl in *.
  - by exists last.
  - apply andb_prop in Hmono as [Hle%Qle_bool_iff Hrest].
    destruct Ht as (Hst & Hord & Hok).
    eapply IH; [exact Hrest |]. split; [| split].
    + by apply (started_step st last).
    + by apply (ordered_step st last).
    + by apply (dwell_ok_step st last).
Qed.

Lemma timed_init last : timed init last.
Proof.
  split; [| split].
  - intros Hrec. discriminate Hrec.
  - by apply ordered_empty.
  - constructor.
Qed.

Lemma format_released_In (l : list entry) (t : Payload.timing) :
  In t (released l) ->
  exists e, In e l /\ release_time e = Some (Payload.release_time t)
            /\ press_time e = Payload.press_time t /\ key e = Payload.key t.
Proof.
  induction l as [| e l IH]; simpl; [done |].
  destruct (release_time e) as [r |] eqn:Hr.
  - intros [<- | Hin].
    + exists e. simpl. by repeat split; try left.
    + destruct (IH Hin) as (e' & He' & Hrest). exists e'. split; [by right | done].
  - intros Hin. destruct (IH Hin) as (e' & He' & Hrest).
    exists e'. split; [by right | done].
Qed.

(** X6.  When the clock never goes back, no entry has a negative press time and
    no release precedes its press: every exported entry has
    [0 <= press_time <= release_time], a dwell time that is not negative. *)
Theorem dwell_never_negative
    (evs : list event) (now : Q) (value : string) (t : Payload.timing) :
  clock_monotone (List.map clock evs) = true ->
  In t (Samples.timings_of (exportPayload (run init evs) now value)) ->
  0 <= Payload.press_time t <= Payload.release_time t
  /\ 0 <= Payload.dwell t.
Proof.
  intros Hmono Hin.
  assert (Forall dwell_ok (timings (run init evs))) as Hok.
  { destruct evs as [| ev evs]; [constructor |].
    destruct (timed_run (ev :: evs) init (clock ev) []) as (last' & Ht & _);
      [| apply timed_init | apply Ht].
    simpl in *. rewrite app_nil_r, Hmono, andb_true_r.
    apply Qle_bool_iff, Qle_refl. }
  unfold exportPayload, Samples.timings_of in Hin. simpl in Hin.
  rewrite format_filter_released in Hin.
  apply format_released_In in Hin as (e & He & Hrel & Hpress & _).
  apply list_elem_of_In in He.
  destruct (proj1 (Forall_forall _ _) Hok e He) as [H0 Hle].
  specialize (Hle _ Hrel). rewrite Hpress in *. unfold Payload.dwell. lia.
Qed.

Lemma dwell_never_negative_witness :
  0 <= Payload.press_time (Payload.mkTiming "a" 180 260)
    <= Payload.release_time (Payload.mkTiming "a" 180 260)
  /\ 0 <= Payload.dwell (Payload.mkTiming "a" 180 260).
Proof.
  apply (dwell_never_negative five_presses 1700 "paste").
  - reflexivity.
  - vm_compute. right. left. reflexivity.
Defined.

End window.

(** ** The window of a session *)

Section total_time.
Import Recorder Session Window.

Lemma windowed_later st last now :
  (last <= now)%Q -> windowed st last -> windowed st now.
Proof.
  intros Hle [Hset Hrel]. split; [done |].
  eapply Forall_impl; [exact Hrel |]. simpl. intros e He r Hr.
  pose proof (elapsed_mono st last now Hle). specialize (He r Hr). lia.
Qed.

Lemma positive_truthy (now : Q) : (0 < now)%Q -> truthy (Some now) = true.
Proof.
  intros Hpos. simpl. apply negb_true_iff, not_true_iff_false.
  intros Heq%Qeq_bool_iff. rewrite Heq in Hpos. by apply Qlt_irrefl in Hpos.
Qed.

Lemma windowed_step st last ev :
  (last <= clock ev)%Q -> (0 < clock ev)%Q ->
  started st last -> windowed st last -> windowed (step st ev) (clock ev).
Proof.
  intros Hle Hpos Hst Hw.
  destruct ev as [now | now v | now k | now k | now v | now];
    simpl in Hle, Hpos |- *;
    pose proof (windowed_later st last now Hle Hw) as [Hset Hrel].
  - split; [| constructor]. intros s [= <-]. by apply positive_truthy.
  - by split.
  - unfold onKeyDown. destruct (isRecording st) eqn:Hrec; simpl; [| by split].
    destruct (Hst Hrec) as (s & Hs & _). pose proof (Hset s Hs) as Htruthy.
    rewrite Hs in *. rewrite Htruthy. simpl negb. cbn iota.
    assert (forall l m, elapsed (mkState l (Some s) true m) now = elapsed st now)
      as Hel by (intros l m; unfold elapsed; simpl; by rewrite Hs).
    destruct (keyStates st !! k); split; simpl; try done.
    + eapply Forall_impl; [exact Hrel |]. simpl. intros e He. by rewrite Hel.
    + apply Forall_app. split.
      * eapply Forall_impl; [exact Hrel |]. simpl. intros e He. by rewrite Hel.
      * repeat constructor. simpl. intros r Hr. discriminate Hr.
  - unfold onKeyUp. destruct (isRecording st) eqn:Hrec; simpl; [| by split].
    destruct (keyStates st !! k) as [ks |]; [| by split].
    destruct (Hst Hrec) as (s & Hs & _). pose proof (Hset s Hs) as Htruthy.
    assert (forall l m, elapsed (mkState l (startTime st) true m) now
                        = elapsed st now) as Hel by done.
    split; simpl; [done |].
    assert (Forall (fun e => forall r, release_time e = Some r ->
                      r <= elapsed (mkState (timings st) (startTime st) true
                                            (delete k (keyStates st))) now)
                   (timings st)) as Hrel'
      by (eapply Forall_impl; [exact Hrel |]; simpl; intros e He; by rewrite Hel).
    destruct (timings st !! KeyState.index ks) as [e |] eqn:He;
      [| eapply Forall_impl; [exact Hrel' |]; done].
    destruct (release_time e);
      [eapply Forall_impl; [exact Hrel' |]; done |].
    apply Forall_insert; [eapply Forall_impl; [exact Hrel' |]; done |].
    simpl. intros r [= <-]. rewrite Hel. unfold elapsed.
    rewrite Hs in *. by rewrite Htruthy.
  - by split.
  - split; [done | constructor].
Qed.

Lemma windowed_run evs : forall st last rest,
  monotone_from last (List.map clock evs ++ rest) = true ->
  all_positive (List.map clock evs) = true ->
  timed st last -> windowed st last ->
  exists last', windowed (run st evs) last' /\ monotone_from last' rest = true.
Proof.
  induction evs as [| ev evs IH]; intros st last rest Hmono Hpos Ht Hw;
    simpl in *.
  - by exists last.
  - apply andb_prop in Hmono as [Hle%Qle_bool_iff Hrest].
    apply andb_prop in Hpos as [Hev Hevs].
    assert (0 < clock ev)%Q as Hlt.
    { apply Qnot_le_lt. intros Hneg%Qle_bool_iff.
      rewrite Hneg in Hev. discriminate Hev. }
    destruct Ht as (Hst & Hord & Hok).
    eapply IH; [exact Hrest | exact Hevs | |].
    + split; [| split].
      * by apply (started_step st last).
      * by apply (ordered_step st last).
      * by apply (dwell_ok_step st last).
    + by apply (windowed_step st last).
Qed.

(** X7.  When the clock readings are positive and never go back, every entry of
    an export ends within the session's window: its [release_time] is at
    most the [total_time] of that export. *)
Theorem release_within_total_time
    (evs : list event) (now : Q) (value : string) (t : Payload.timing) :
  clock_monotone (List.map clock evs ++ [now]) = true ->
  all_positive (List.map clock evs) = true ->
  In t (Samples.timings_of (exportPayload (run init evs) now value)) ->
  Payload.release_time t
  <= Payload.total_time (exportPayload (run init evs) now value).
Proof.
  intros Hmono Hpos Hin.
  assert (exists last', windowed (run init evs) last'
                        /\ monotone_from last' [now] = true)
    as (last' & [_ Hrel] & Hlast).
  { destruct evs as [| ev evs]; [by simpl in Hin |].
    apply (windowed_run (ev :: evs) init (clock ev) [now]);
      [| done | apply timed_init | by split; [| constructor]].
    simpl in *. rewrite Hmono, andb_true_r. apply Qle_bool_iff, Qle_refl. }
  simpl in Hlast. rewrite andb_true_r in Hlast. apply Qle_bool_iff in Hlast.
  unfold exportPayload, Samples.timings_of in Hin. simpl in Hin.
  rewrite format_filter_released in Hin.
  apply format_released_In in Hin as (e & He & Hr & _).
  apply list_elem_of_In in He.
  pose proof (proj1 (Forall_forall _ _) Hrel e He _ Hr) as Hle.
  pose proof (elapsed_mono (run init evs) last' now Hlast) as Hmono'.
  unfold exportPayload. simpl. fold (elapsed (run init evs) now). lia.
Qed.

Lemma release_within_total_time_witness :
  Payload.release_time (Payload.mkTiming "t" 500 570)
  <= Payload.total_time (exportPayload (run init five_presses) 1700 "paste").
Proof.
  apply (release_within_total_time five_presses 1700 "paste").
  - reflexivity.
  - reflexivity.
  - vm_compute. do 3 right. left. reflexivity.
Defined.

(** When the clock reads 0 at the start, [onKeyDown] takes [startTime] for
    unset and moves it to the clock reading of a later press: the entry
    released before that press then ends after the [total_time]. *)
Example start_at_clock_zero :
  exportPayload
    (run init [Start 0; KeyDown 0 "a"; KeyUp 180 "a"; KeyDown 200 "b"; KeyUp 260 "b"])
    300 "ab"
  = {| Payload.password := "ab";
       Payload.keystroke_timings :=
         Some [ Payload.mkTiming "a" 0 180; Payload.mkTiming "b" 0 60 ];
       Payload.total_time := 100 |}.
Proof. vm_compute. reflexivity. Qed.

End total_time.

(** ** More on the comparator *)

Section comparator_more.
Import Comparator Samples.

Lemma loop_body_sym (timings1 timings2 : list Payload.timing) acc i :
  loop_body timings1 timings2 acc i = loop_body timings2 timings1 acc i.
Proof.
  unfold loop_body.
  destruct (timings1 !! i) as [t1 |], (timings2 !! i) as [t2 |]; try done.
  rewrite (String.eqb_sym (Payload.key t1)).
  destruct (String.eqb (Payload.key t2) (Payload.key t1)); [| done].
  rewrite andb_comm.
  destruct ((0 <? Payload.release_time t2 - Payload.press_time t2)
            && (0 <? Payload.release_time t1 - Payload.press_time t1)); [| done].
  simpl. f_equal. f_equal.
  rewrite <- Z.abs_opp. f_equal. lia.
Qed.

Lemma dwell_loop_sym (timings1 timings2 : list Payload.timing) :
  dwell_loop timings1 timings2 = dwell_loop timings2 timings1.
Proof.
  unfold dwell_loop. rewrite Nat.min_comm.
  generalize (seq 0 (length timings2 `min` length timings1)) (0, 0%nat).
  intros positions. induction positions as [| i positions IH]; intros acc; simpl;
    [done |].
  by rewrite loop_body_sym, IH.
Qed.

(** X10.  The comparison does not depend on which payload is the reference:
    exchanging the two payloads gives the same result, field by field. *)
Theorem compare_symmetric (pattern1 pattern2 : Payload.t) (threshold : Q) :
  compareKeystrokePatterns pattern1 pattern2 threshold
  = compareKeystrokePatterns pattern2 pattern1 threshold.
Proof.
  unfold compareKeystrokePatterns.
  destruct (Payload.keystroke_timings pattern1) as [timings1 |],
           (Payload.keystroke_timings pattern2) as [timings2 |]; try done.
  rewrite (String.eqb_sym (Payload.password pattern1)).
  destruct (String.eqb (Payload.password pattern2) (Payload.password pattern1));
    simpl; [| done].
  replace (Z.abs (Z.of_nat (length timings1) - Z.of_nat (length timings2)))
    with (Z.abs (Z.of_nat (length timings2) - Z.of_nat (length timings1)))
    by lia.
  by rewrite dwell_loop_sym.
Qed.

(** What the loop accumulates: a difference that is not negative and a
    count of at most one per position. *)
Lemma loop_bounds (timings1 timings2 : list Payload.timing)
    (positions : list nat) :
  forall acc, 0 <= fst acc ->
    0 <= fst (fold_left (loop_body timings1 timings2) positions acc)
    /\ (snd (fold_left (loop_body timings1 timings2) positions acc)
        <= snd acc + length positions)%nat.
Proof.
  induction positions as [| i positions IH]; intros acc Hacc; simpl;
    [split; [done | lia] |].
  assert (0 <= fst (loop_body timings1 timings2 acc i)
          /\ (snd (loop_body timings1 timings2 acc i) <= S (snd acc))%nat)
    as [H0 Hn].
  { unfold loop_body.
    destruct (timings1 !! i), (timings2 !! i); try (split; [done | lia]).
    destruct (String.eqb _ _); [| split; [done | lia]].
    destruct (_ && _); simpl; split; lia. }
  destruct (IH _ H0) as [Hfst Hsnd]. split; [exact Hfst | lia].
Qed.

Lemma raw_score_range (total : Z) (n : nat) :
  0 <= total -> (0 < n)%nat ->
  (0 <= Qmax 0 (1 - inject_Z total / inject_Z (Z.of_nat n) / 150) <= 1)%Q.
Proof.
  intros Htotal Hn. split; [apply Q.le_max_l |].
  apply Q.max_lub; [discriminate |].
  assert (0 <= inject_Z total / inject_Z (Z.of_nat n) / 150)%Q as Havg.
  { apply Qle_shift_div_l; [reflexivity |]. rewrite Qmult_0_l.
    apply Qle_shift_div_l.
    - change 0%Q with (inject_Z 0). rewrite <- Zlt_Qlt. lia.
    - rewrite Qmult_0_l. change 0%Q with (inject_Z 0). by rewrite <- Zle_Qle. }
  apply (Qplus_le_l _ _ (inject_Z total / inject_Z (Z.of_nat n) / 150)).
  ring_simplify.
  apply (Qplus_le_r _ _ (-1)) . ring_simplify. exact Havg.
Qed.

Lemma rounded_score_range (x : Q) :
  (0 <= x <= 1)%Q -> (0 <= inject_Z (Math_round (x * 100)) / 100 <= 1)%Q.
Proof.
  intros [H0 H1].
  assert (0 <= Math_round (x * 100) <= 100) as [Hlo Hhi].
  { split.
    - apply Math_round_nonneg. apply Qmult_le_0_compat; [done | discriminate].
    - apply Z.le_trans with (Math_round (1 * 100)).
      + apply Math_round_mono, Qmult_le_compat_r; [done | discriminate].
      + vm_compute. discriminate. }
  split.
  - apply Qle_shift_div_l; [reflexivity |]. rewrite Qmult_0_l.
    change 0%Q with (inject_Z 0). by rewrite <- Zle_Qle.
  - apply Qle_shift_div_r; [reflexivity |]. rewrite Qmult_1_l.
    change 100%Q with (inject_Z 100). by rewrite <- Zle_Qle.
Qed.

(** X11.  Whatever the two payloads and the threshold, the score returned lies
    between 0 and 1. *)
Theorem score_in_unit_interval (pattern1 pattern2 : Payload.t) (threshold : Q) :
  (0 <= score (compareKeystrokePatterns pattern1 pattern2 threshold) <= 1)%Q.
Proof.
  unfold compareKeystrokePatterns.
  destruct (Payload.keystroke_timings pattern1) as [timings1 |],
           (Payload.keystroke_timings pattern2) as [timings2 |];
    try (split; discriminate).
  destruct (negb _); [split; discriminate |].
  destruct (2 <? _); [split; discriminate |].
  destruct (loop_bounds timings1 timings2
              (seq 0 (Nat.min (length timings1) (length timings2)))
              (0, 0%nat)) as [Htotal _]; [done |].
  fold (dwell_loop timings1 timings2) in Htotal.
  destruct (dwell_loop timings1 timings2) as [totalDifference validComparisons].
  simpl in Htotal.
  destruct (Nat.eqb_spec validComparisons 0) as [-> | Hne];
    [split; discriminate |].
  simpl. apply rounded_score_range, raw_score_range; [done | lia].
Qed.



(** X13.  The fields of a result agree with each other: [similar] is true exactly
    when the reason is "Patrón consistente"; a result with a count of valid
    comparisons has a count between 1 and the length of the shorter list, an
    average difference that is not negative and one of the two pattern
    reasons; a result without one is [{similar: false, score: 0}] with one
    of the four other reasons. *)
Theorem result_consistent (pattern1 pattern2 : Payload.t) (threshold : Q) :
  (similar (compareKeystrokePatterns pattern1 pattern2 threshold) = true
   <-> why (compareKeystrokePatterns pattern1 pattern2 threshold) = Consistent)
  /\ match validComparisons (compareKeystrokePatterns pattern1 pattern2 threshold) with
     | Some n =>
         (1 <= n <= Nat.min (length (timings_of pattern1))
                            (length (timings_of pattern2)))%nat
         /\ (why (compareKeystrokePatterns pattern1 pattern2 threshold) = Consistent
             \/ why (compareKeystrokePatterns pattern1 pattern2 threshold)
                = Inconsistent)
         /\ exists d,
              avgDifference (compareKeystrokePatterns pattern1 pattern2 threshold)
              = Some d /\ 0 <= d
     | None =>
         compareKeystrokePatterns pattern1 pattern2 threshold
         = rejected (why (compareKeystrokePatterns pattern1 pattern2 threshold))
         /\ why (compareKeystrokePatterns pattern1 pattern2 threshold) <> Consistent
         /\ why (compareKeystrokePatterns pattern1 pattern2 threshold) <> Inconsistent
     end.
Proof.
  unfold compareKeystrokePatterns, timings_of.
  destruct (Payload.keystroke_timings pattern1) as [timings1 |],
           (Payload.keystroke_timings pattern2) as [timings2 |];
    try (simpl; by repeat split).
  destruct (negb _); [simpl; by repeat split |].
  destruct (2 <? _); [simpl; by repeat split |].
  destruct (loop_bounds timings1 timings2
              (seq 0 (Nat.min (length timings1) (length timings2)))
              (0, 0%nat)) as [Htotal Hvalid]; [done |].
  rewrite length_seq in Hvalid.
  fold (dwell_loop timings1 timings2) in Htotal, Hvalid.
  destruct (dwell_loop timings1 timings2) as [totalDifference validComparisons].
  simpl in Htotal, Hvalid.
  destruct (Nat.eqb_spec validComparisons 0) as [-> | Hne];
    [simpl; by repeat split |].
  simpl. split.
  - destruct (Qle_bool threshold _); by split.
  - split; [lia |]. split; [destruct (Qle_bool threshold _); [by left | by right] |].
    eexists. split; [reflexivity |].
    apply Math_round_nonneg, Qle_shift_div_l.
    + change 0%Q with (inject_Z 0). rewrite <- Zlt_Qlt. lia.
    + rewrite Qmult_0_l. change 0%Q with (inject_Z 0). by rewrite <- Zle_Qle.
Qed.

(** The running totals when every compared pair is at least 150 ms apart. *)
Lemma loop_far_apart (timings1 timings2 : list Payload.timing)
    (positions : list nat) :
  (forall i a b, timings1 !! i = Some a -> timings2 !! i = Some b ->
                 150 <= Z.abs (Payload.dwell a - Payload.dwell b)) ->
  forall acc, 150 * Z.of_nat (snd acc) <= fst acc ->
    150 * Z.of_nat (snd (fold_left (loop_body timings1 timings2) positions acc))
    <= fst (fold_left (loop_body timings1 timings2) positions acc).
Proof.
  intros Hfar. induction positions as [| i positions IH]; intros acc Hacc; simpl;
    [done |].
  apply IH. unfold loop_body.
  destruct (timings1 !! i) as [a |] eqn:Ha, (timings2 !! i) as [b |] eqn:Hb;
    try done.
  destruct (String.eqb _ _); [| done]. destruct (_ && _); [| done].
  specialize (Hfar i a b Ha Hb). unfold Payload.dwell in Hfar. simpl. lia.
Qed.

Lemma raw_score_zero (total : Z) (n : nat) :
  (0 < n)%nat -> 150 * Z.of_nat n <= total ->
  (Qmax 0 (1 - inject_Z total / inject_Z (Z.of_nat n) / 150) == 0)%Q.
Proof.
  intros Hn Hfar. apply Q.max_l.
  assert (1 <= inject_Z total / inject_Z (Z.of_nat n) / 150)%Q as Havg.
  { apply Qle_shift_div_l; [reflexivity |]. rewrite Qmult_1_l.
    apply Qle_shift_div_l.
    - change 0%Q with (inject_Z 0). rewrite <- Zlt_Qlt. lia.
    - change 150%Q with (inject_Z 150). rewrite <- inject_Z_mult, <- Zle_Qle.
      exact Hfar. }
  apply (Qplus_le_l _ _ (inject_Z total / inject_Z (Z.of_nat n) / 150)).
  ring_simplify. exact Havg.
Qed.

(** X15.  When the dwell times of every aligned pair of entries differ by 150 ms
    or more, the score is 0 and the pair is not similar for any positive
    threshold. *)
Theorem far_apart_scores_zero (pattern1 pattern2 : Payload.t) (threshold : Q) :
  (forall i a b,
      timings_of pattern1 !! i = Some a -> timings_of pattern2 !! i = Some b ->
      150 <= Z.abs (Payload.dwell a - Payload.dwell b)) ->
  (score (compareKeystrokePatterns pattern1 pattern2 threshold) == 0)%Q
  /\ ((0 < threshold)%Q ->
      similar (compareKeystrokePatterns pattern1 pattern2 threshold) = false).
Proof.
  unfold compareKeystrokePatterns, timings_of.
  destruct (Payload.keystroke_timings pattern1) as [timings1 |],
           (Payload.keystroke_timings pattern2) as [timings2 |];
    try (intros _; by split).
  intros Hfar.
  destruct (negb _); [by split |]. destruct (2 <? _); [by split |].
  pose proof (loop_far_apart timings1 timings2
                (seq 0 (Nat.min (length timings1) (length timings2)))
                Hfar (0, 0%nat)) as Htotal.
  fold (dwell_loop timings1 timings2) in Htotal.
  destruct (dwell_loop timings1 timings2) as [totalDifference validComparisons].
  simpl in Htotal. specialize (Htotal ltac:(lia)).
  destruct (Nat.eqb_spec validComparisons 0) as [-> | Hne]; [by split |].
  pose proof (raw_score_zero totalDifference validComparisons
                ltac:(lia) Htotal) as Hzero.
  simpl. split.
  - rewrite (Math_round_Qeq _ 0); [reflexivity |]. by rewrite Hzero.
  - intros Hpos. apply not_true_iff_false. intros Hle%Qle_bool_iff.
    rewrite Hzero in Hle. by apply Qle_not_lt in Hle.
Qed.

Lemma far_apart_scores_zero_witness :
  (score (compareKeystrokePatterns
            (Payload.mk "kk" (Some (strokes 0 2 100)) 2000)
            (Payload.mk "kk" (Some (strokes 0 2 600)) 2000)
            default_threshold) == 0)%Q
  /\ similar (compareKeystrokePatterns
                (Payload.mk "kk" (Some (strokes 0 2 100)) 2000)
                (Payload.mk "kk" (Some (strokes 0 2 600)) 2000)
                default_threshold) = false.
Proof.
  destruct (far_apart_scores_zero
              (Payload.mk "kk" (Some (strokes 0 2 100)) 2000)
              (Payload.mk "kk" (Some (strokes 0 2 600)) 2000)
              default_threshold) as [Hscore Hsim].
  - intros [| [| i]] a b Ha Hb; vm_compute in Ha, Hb; try discriminate;
      injection Ha as <-; injection Hb as <-; vm_compute; discriminate.
  - split; [exact Hscore | apply Hsim; reflexivity].
Defined.

End comparator_more.

(** ** The reasons of a rejection *)

Section rejections.
Import Comparator Samples Pairs.

Lemma loop_counts (timings1 timings2 : list Payload.timing)
    (positions : list nat) :
  forall acc,
    snd (fold_left (loop_body timings1 timings2) positions acc)
    = (snd acc + length (List.filter (counted timings1 timings2) positions))%nat.
Proof.
  induction positions as [| i positions IH]; intros acc; simpl; [lia |].
  rewrite IH. unfold loop_body, counted, Payload.dwell.
  destruct (timings1 !! i), (timings2 !! i); try lia.
  destruct (String.eqb _ _); simpl; [| lia].
  destruct (0 <? _); simpl; [| lia]. destruct (0 <? _); simpl; lia.
Qed.

Lemma none_counted_iff (timings1 timings2 : list Payload.timing) :
  snd (dwell_loop timings1 timings2) = 0%nat
  <-> forall i, counted timings1 timings2 i = false.
Proof.
  unfold dwell_loop. rewrite loop_counts. simpl.
  rewrite length_zero_iff_nil. split.
  - intros Hnil i.
    destruct (decide (i < Nat.min (length timings1) (length timings2))%nat)
      as [Hlt | Hge].
    + destruct (counted timings1 timings2 i) eqn:Hc; [| done].
      assert (In i (List.filter (counted timings1 timings2)
                      (seq 0 (Nat.min (length timings1) (length timings2)))))
        as Hin by (apply filter_In; split; [apply in_seq; lia | done]).
      rewrite Hnil in Hin. by destruct Hin.
    + unfold counted.
      destruct (timings1 !! i) eqn:H1, (timings2 !! i) eqn:H2; try done.
      apply lookup_lt_Some in H1, H2. lia.
  - intros Hnone.
    destruct (List.filter _ _) as [| i l] eqn:Hf; [done |].
    assert (In i (i :: l)) as Hin by by left.
    rewrite <- Hf in Hin. apply filter_In in Hin as [_ Hc].
    by rewrite Hnone in Hc.
Qed.

(** Closes the cases of a statement about reasons: a reason is equal to
    another one or not, a list is there or not. *)
Ltac settle :=
  intuition (try discriminate; try lia);
  repeat match goal with
         | H : is_Some None |- _ => by destruct H
         end.

(** X14.  The four rejections, each with the inputs that cause it: a missing
    timing list; else different passwords; else lists whose lengths differ
    by more than 2; else no position where both lists have an entry for the
    same key with a positive dwell time. *)
Theorem rejection_reasons (pattern1 pattern2 : Payload.t) (threshold : Q) :
  (why (compareKeystrokePatterns pattern1 pattern2 threshold) = InsufficientData
   <-> ~ both_present pattern1 pattern2)
  /\ (why (compareKeystrokePatterns pattern1 pattern2 threshold) = PasswordMismatch
      <-> both_present pattern1 pattern2
          /\ Payload.password pattern1 <> Payload.password pattern2)
  /\ (why (compareKeystrokePatterns pattern1 pattern2 threshold) = LengthMismatch
      <-> both_present pattern1 pattern2
          /\ Payload.password pattern1 = Payload.password pattern2
          /\ 2 < length_gap pattern1 pattern2)
  /\ (why (compareKeystrokePatterns pattern1 pattern2 threshold)
      = NoValidComparisons
      <-> both_present pattern1 pattern2
          /\ Payload.password pattern1 = Payload.password pattern2
          /\ length_gap pattern1 pattern2 <= 2
          /\ forall i, counted (timings_of pattern1) (timings_of pattern2) i
                       = false).
Proof.
  unfold compareKeystrokePatterns, both_present, length_gap, timings_of.
  destruct (Payload.keystroke_timings pattern1) as [timings1 |];
    [| simpl; settle].
  destruct (Payload.keystroke_timings pattern2) as [timings2 |];
    [| simpl; settle].
  assert (is_Some (Some timings1) /\ is_Some (Some timings2)) as Hboth
    by (split; by eexists).
  destruct (String.eqb_spec (Payload.password pattern1)
                            (Payload.password pattern2)) as [Hpw | Hpw]; simpl;
    [| settle].
  destruct (Z.ltb_spec 2 (Z.abs (Z.of_nat (length timings1)
                                 - Z.of_nat (length timings2))))
    as [Hgap | Hgap]; simpl; [settle |].
  pose proof (none_counted_iff timings1 timings2) as Hnone.
  destruct (dwell_loop timings1 timings2) as [totalDifference validComparisons].
  simpl in Hnone.
  destruct (Nat.eqb_spec validComparisons 0) as [Hzero | Hpos]; simpl.
  - settle.
  - destruct (Qle_bool threshold _); simpl; settle.
Qed.

End rejections.

(** ** More on the analyzer *)

Section analyzer_more.
Import Analyzer Samples.

Lemma no_positive_dwell (timings : list Payload.timing) :
  length (List.filter (fun dwell => 0 <? dwell) (List.map Payload.dwell timings))
  = 0%nat
  <-> forall t, In t timings -> Payload.dwell t <= 0.
Proof.
  induction timings as [| t timings IH]; simpl; [by split |].
  destruct (Z.ltb_spec 0 (Payload.dwell t)) as [Hpos | Hneg]; simpl.
  - split; [lia |]. intros Hall. specialize (Hall t (or_introl eq_refl)). lia.
  - rewrite IH. split.
    + intros Hall t' [<- | Hin]; [done | by apply Hall].
    + intros Hall t' Hin. apply Hall. by right.
Qed.

(** X17.  The two results without statistics: "Sin datos de timing" is returned
    exactly for a payload with no timing list or an empty one, "No hay dwell
    times válidos" exactly for a list that is not empty and has no entry
    with a positive dwell time. *)
Theorem invalid_results (data : Payload.t) :
  (analyzeKeystrokePattern data = Invalid NoTimingData
   <-> timings_of data = [])
  /\ (analyzeKeystrokePattern data = Invalid NoValidDwells
      <-> timings_of data <> []
          /\ forall t, In t (timings_of data) -> Payload.dwell t <= 0).
Proof.
  unfold analyzeKeystrokePattern, timings_of.
  destruct (Payload.keystroke_timings data) as [timings |];
    [| split; split; try done; by intros [Hne _]].
  destruct timings as [| t timings];
    [split; split; try done; by intros [Hne _] |].
  change (length (t :: timings) =? 0)%nat with false. cbn iota.
  pose proof (no_positive_dwell (t :: timings)) as Hnone.
  destruct (Nat.eqb_spec
              (length (List.filter (fun dwell => 0 <? dwell)
                         (List.map Payload.dwell (t :: timings)))) 0)
    as [Hzero | Hsome].
  - split; split; try done. intros _. split; [done | by apply Hnone].
  - split; split; try done. intros [_ Hall]. by apply Hnone in Hall.
Qed.

Lemma sum_from (xs : list Z) (a : Z) : fold_left Z.add xs a = a + sum xs.
Proof.
  unfold sum. revert a. induction xs as [| x xs IH]; intros a; simpl; [lia |].
  rewrite (IH (a + x)), (IH (0 + x)). lia.
Qed.

Lemma sum_at_least (xs : list Z) (b : Z) :
  Forall (fun x => b <= x) xs -> b * Z.of_nat (length xs) <= sum xs.
Proof.
  induction 1 as [| x xs Hx _ IH]; [unfold sum; simpl; lia |].
  unfold sum in *. simpl. rewrite sum_from. unfold sum. simpl length. lia.
Qed.

Lemma kept_dwells_positive (timings : list Payload.timing) :
  Forall (fun d => 1 <= d)
         (List.filter (fun dwell => 0 <? dwell) (List.map Payload.dwell timings)).
Proof.
  apply Forall_forall. intros d Hd.
  apply list_elem_of_In, filter_In in Hd as [_ Hd]. apply Z.ltb_lt in Hd. lia.
Qed.

Lemma kept_dwells_count (timings : list Payload.timing) :
  length (List.filter (fun dwell => 0 <? dwell) (List.map Payload.dwell timings))
  = count_dwells (fun d => 0 <? d) timings.
Proof.
  unfold count_dwells. induction timings as [| t timings IH]; simpl; [done |].
  destruct (0 <? Payload.dwell t); simpl; by rewrite IH.
Qed.

Lemma kept_flights_nonneg (timings : list Payload.timing) :
  Forall (fun f => 0 <= f)
         (List.filter (fun flight => 0 <=? flight) (flights timings)).
Proof.
  apply Forall_forall. intros f Hf.
  apply list_elem_of_In, filter_In in Hf as [_ Hf]. by apply Z.leb_le in Hf.
Qed.

Lemma mean_at_least (total : Z) (n : nat) (b : Z) :
  (0 < n)%nat -> b * Z.of_nat n <= total ->
  Math_round (inject_Z b) <= Math_round (inject_Z total / inject_Z (Z.of_nat n)).
Proof.
  intros Hn Hle. apply Math_round_mono, Qle_shift_div_l.
  - change 0%Q with (inject_Z 0). rewrite <- Zlt_Qlt. lia.
  - by rewrite <- inject_Z_mult, <- Zle_Qle.
Qed.

(** X18.  The statistics of a report: [totalKeys] is the number of entries,
    [validDwells] the number of entries with a positive dwell time, at
    least 1; the rounded mean dwell time is at least 1 ms and the rounded
    mean flight time is not negative; [totalTime] repeats the payload's
    [total_time]; and [valid] is true exactly when no anomaly is listed. *)
Theorem report_statistics
    (data : Payload.t) (valid : bool) (anomalies : list anomaly) (s : stats) :
  analyzeKeystrokePattern data = Report valid anomalies s ->
  totalKeys s = length (timings_of data)
  /\ validDwells s = count_dwells (fun d => 0 <? d) (timings_of data)
  /\ (1 <= validDwells s <= totalKeys s)%nat
  /\ 1 <= avgDwell s
  /\ 0 <= avgFlight s
  /\ totalTime s = Payload.total_time data
  /\ (valid = true <-> anomalies = []).
Proof.
  unfold analyzeKeystrokePattern, timings_of.
  destruct (Payload.keystroke_timings data) as [timings |]; [| done].
  destruct (length timings =? 0)%nat; [done |].
  pose proof (kept_dwells_positive timings) as Hdwells.
  pose proof (kept_flights_nonneg timings) as Hflights.
  apply sum_at_least in Hdwells, Hflights.
  pose proof (kept_dwells_count timings) as Hcount.
  assert (count_dwells (fun d => (0 <? d)%Z) timings <= length timings)%nat
    as Hle by apply filter_length_le.
  destruct (Nat.eqb_spec
              (length (List.filter (fun dwell => 0 <? dwell)
                         (List.map Payload.dwell timings))) 0)
    as [Hzero | Hsome]; [done |].
  intros [= <- <- <-]. simpl.
  split; [done |]. split; [done |]. split; [lia |]. split; [| split; [| split]].
  - apply (mean_at_least _ _ 1); [lia | exact Hdwells].
  - destruct (Nat.ltb_spec 0
                (length (List.filter (fun flight => 0 <=? flight)
                           (flights timings)))) as [Hpos | Hnone].
    + apply (mean_at_least _ _ 0); [lia | exact Hflights].
    + done.
  - done.
  - rewrite Nat.eqb_eq. apply length_zero_iff_nil.
Qed.

Lemma report_statistics_witness :
  totalKeys (mkStats 300 678 10 10 10000) = length (timings_of four_long)
  /\ validDwells (mkStats 300 678 10 10 10000)
     = count_dwells (fun d => 0 <? d) (timings_of four_long)
  /\ (1 <= validDwells (mkStats 300 678 10 10 10000)
      <= totalKeys (mkStats 300 678 10 10 10000))%nat
  /\ 1 <= avgDwell (mkStats 300 678 10 10 10000)
  /\ 0 <= avgFlight (mkStats 300 678 10 10 10000)
  /\ totalTime (mkStats 300 678 10 10 10000) = Payload.total_time four_long
  /\ (false = true <-> [KeysHeldTooLong] = []).
Proof.
  apply (report_statistics four_long false [KeysHeldTooLong]
           (mkStats 300 678 10 10 10000)).
  reflexivity.
Defined.

End analyzer_more.

(** ** The two revisions of the recorder *)

Section revisions.
Import Session.

Lemma release_last_none (l : list Recorder.entry) (k : string) (t : Z) :
  has_open k l = false -> forall i, Previous.release_last l i k t = l.
Proof.
  intros Hclosed. induction i as [| j IH]; simpl; [done |].
  destruct (l !! j) as [e |] eqn:He; [| exact IH].
  destruct (String.eqb (Recorder.key e) k
            && match Recorder.release_time e with
               | None => true | Some _ => false end) eqn:Htest; [| exact IH].
  assert (has_open k l = true) as Hopen; [| congruence].
  unfold has_open. apply existsb_exists. exists e. split; [| done].
  apply list_elem_of_In, list_elem_of_lookup. by exists j.
Qed.

Lemma release_last_at (l : list Recorder.entry) (k : string) (t : Z)
    (idx : nat) (e : Recorder.entry) :
  l !! idx = Some e -> Recorder.key e = k -> Recorder.release_time e = None ->
  (forall j e', l !! j = Some e' -> Recorder.key e' = k ->
                Recorder.release_time e' = None -> j = idx) ->
  forall i, (idx < i)%nat ->
    Previous.release_last l i k t = <[ idx := Recorder.set_release e t ]> l.
Proof.
  intros He Hkey Hrel Honly. induction i as [| j IH]; intros Hlt; [lia |].
  simpl. destruct (l !! j) as [e' |] eqn:He'.
  - destruct (String.eqb_spec (Recorder.key e') k) as [Hk | Hk]; simpl.
    + destruct (Recorder.release_time e') eqn:Hr'.
      * apply IH. destruct (decide (j = idx)) as [-> | Hne]; [| lia].
        rewrite He in He'. injection He' as ->. congruence.
      * pose proof (Honly j e' He' Hk Hr') as ->.
        rewrite He in He'. by injection He' as ->.
    + apply IH. destruct (decide (j = idx)) as [-> | Hne]; [| lia].
      rewrite He in He'. injection He' as ->. congruence.
  - apply IH. destruct (decide (j = idx)) as [-> | Hne]; [| lia].
    rewrite He in He'. discriminate He'.
Qed.

Lemma same_keys_empty : Previous.same_keys ∅ ∅.
Proof. intros k. by rewrite !lookup_empty. Qed.

Lemma same_keys_insert m1 m2 k b ks :
  Previous.same_keys m1 m2 -> Previous.same_keys (<[ k := b ]> m1) (<[ k := ks ]> m2).
Proof.
  intros Hsame k'. destruct (decide (k = k')) as [<- | Hne].
  - rewrite !lookup_insert_eq. split; by eexists.
  - rewrite !lookup_insert_ne by done. apply Hsame.
Qed.

Lemma same_keys_delete m1 m2 k :
  Previous.same_keys m1 m2 -> Previous.same_keys (delete k m1) (delete k m2).
Proof.
  intros Hsame k'. destruct (decide (k = k')) as [<- | Hne].
  - rewrite !lookup_delete_eq. split; by intros [x Hx].
  - rewrite !lookup_delete_ne by done. apply Hsame.
Qed.

Ltac agree := unfold Previous.agrees; split_and!; simpl; try (done || congruence).

Lemma agrees_onKeyDown st1 st2 now k :
  Previous.agrees st1 st2 ->
  Previous.agrees (Previous.onKeyDown st1 now k) (Recorder.onKeyDown st2 now k).
Proof.
  intros (Ht & Hs & Hr & Hk).
  unfold Previous.onKeyDown, Recorder.onKeyDown. rewrite Hr, Hs, Ht.
  destruct (Recorder.isRecording st2) eqn:Hrec; simpl; [| agree].
  destruct (Hk k) as [Hk1 Hk2].
  destruct (Previous.keyStates st1 !! k) as [b |] eqn:H1,
           (Recorder.keyStates st2 !! k) as [ks |] eqn:H2.
  - agree.
  - by destruct (Hk1 ltac:(by eexists)).
  - by destruct (Hk2 ltac:(by eexists)).
  - agree. by apply same_keys_insert.
Qed.

Lemma agrees_onKeyUp st1 st2 now k :
  Recorder.reachable st2 ->
  Previous.agrees st1 st2 ->
  Previous.agrees (Previous.onKeyUp st1 now k) (Recorder.onKeyUp st2 now k).
Proof.
  intros Hreach (Ht & Hs & Hr & Hk).
  pose proof (reachable_open_index st2 Hreach) as Hinv.
  unfold Previous.onKeyUp, Recorder.onKeyUp. rewrite Hr, Hs, Ht.
  destruct (Recorder.isRecording st2) eqn:Hrec; simpl; [| agree].
  destruct (Recorder.keyStates st2 !! k) as [ks |] eqn:H2.
  - destruct Hinv as [Hfwd Hbwd].
    destruct (Hfwd _ _ H2) as (e & He & Hkey & Hrel). rewrite He, Hrel.
    agree; [| by apply same_keys_delete].
    apply release_last_at; try done; [| by eapply lookup_lt_Some].
    intros j e' He' Hkey' Hrel'.
    destruct (Hbwd _ _ He' Hrel') as (ks' & Hks' & <-).
    rewrite Hkey' in Hks'. congruence.
  - assert (has_open k (Recorder.timings st2) = false) as Hclosed.
    { apply not_true_iff_false. intros Hopen.
      apply (has_open_keyStates st2 k Hinv) in Hopen.
      rewrite H2 in Hopen. by destruct Hopen. }
    agree.
    + by apply release_last_none.
    + intros k'. destruct (decide (k = k')) as [<- | Hne].
      * rewrite lookup_delete_eq, H2. done.
      * rewrite lookup_delete_ne by done. apply Hk.
Qed.

Lemma agrees_run evs : forall st1 st2,
  Recorder.reachable st2 -> Previous.agrees st1 st2 ->
  Previous.agrees (Previous.run st1 evs) (Recorder.run st2 evs).
Proof.
  induction evs as [| ev evs IH]; intros st1 st2 Hreach Hag; simpl; [done |].
  apply IH; [by constructor |].
  destruct ev as [now | now v | now k | now k | now v | now].
  - agree. apply same_keys_empty.
  - destruct Hag as (Ht & Hs & Hr & Hk). agree.
  - by apply agrees_onKeyDown.
  - by apply agrees_onKeyUp.
  - exact Hag.
  - agree. apply same_keys_empty.
Qed.

(** X9.  The corrected recorder records what the revision before it records:
    after the same events the two hold the same entries, clock origin and
    recording flag, and export the same payload.  Looking up the index kept
    in [keyStates] finds the entry that the search from the end found. *)
Theorem revisions_agree (evs : list Recorder.event) :
  Previous.timings (Previous.run Previous.init evs)
  = Recorder.timings (Recorder.run Recorder.init evs)
  /\ Previous.startTime (Previous.run Previous.init evs)
     = Recorder.startTime (Recorder.run Recorder.init evs)
  /\ Previous.isRecording (Previous.run Previous.init evs)
     = Recorder.isRecording (Recorder.run Recorder.init evs)
  /\ forall now value,
       Previous.exportPayload (Previous.run Previous.init evs) now value
       = Recorder.exportPayload (Recorder.run Recorder.init evs) now value.
Proof.
  destruct (agrees_run evs Previous.init Recorder.init) as (Ht & Hs & Hr & _).
  - apply Recorder.reachable_init.
  - agree. apply same_keys_empty.
  - split_and!; try done. intros now value.
    unfold Previous.exportPayload, Recorder.exportPayload.
    rewrite Ht, Hs. do 2 f_equal. f_equal.
    apply filter_ext. intros e. unfold Previous.is_released, Recorder.is_valid.
    by rewrite andb_true_r.
Qed.

End revisions.

(** ** The practice session *)

Section practice.
Import Practice.

Lemma step_button st ev :
  registerBtn (fst (step st ev)) = registerBtn st
  \/ (registerBtn (fst (step st ev)) = Some false
      /\ (maxAttempts <= attempts st)%nat /\ accepting ev = true).
Proof.
  destruct ev as [now | now k | now k | now value | attemptData outcome]; simpl.
  - left. unfold onFocus. by destruct (negb _).
  - by left.
  - by left.
  - left. unfold onBlur. destruct (_ && _); [| done].
    by destruct (Recorder.stopRecording _ _ _).
  - unfold onReply, sendPracticeAttempt.
    destruct outcome as [result |]; [| by left].
    destruct (success result) eqn:Hok; [| by left].
    destruct (Nat.leb_spec maxAttempts (attempts st)) as [Hle | Hlt]; [| by left].
    destruct (can_register result) eqn:Hcan; [| by left].
    cbn [fst registerBtn accepting].
    destruct (registerBtn st); [right | left]; done.
Qed.

Lemma step_attempts st ev :
  (attempts (fst (step st ev))
   <= attempts st + match snd (step st ev) with Some _ => 1 | None => 0 end)%nat.
Proof.
  destruct ev as [now | now k | now k | now value | attemptData outcome]; simpl.
  - unfold onFocus. destruct (negb _); simpl; lia.
  - lia.
  - lia.
  - unfold onBlur. destruct (_ && _); simpl; lia.
  - unfold onReply. destruct (success _); [| simpl; lia].
    destruct (_ <=? _)%nat; [| simpl; lia].
    destruct (can_register _); simpl; lia.
Qed.

Lemma run_button evs : forall st,
  registerBtn st = Some true ->
  registerBtn (fst (run st evs)) = Some false ->
  (maxAttempts <= attempts st + length (snd (run st evs)))%nat
  /\ existsb accepting evs = true.
Proof.
  induction evs as [| ev evs IH]; intros st Hoff Hon; simpl in *;
    [congruence |].
  pose proof (step_button st ev) as Hbtn.
  pose proof (step_attempts st ev) as Hatt.
  destruct (step st ev) as [st' sent]. simpl in *.
  specialize (IH st').
  destruct (run st' evs) as [st'' sent']. simpl in *.
  destruct Hbtn as [Hsame | (_ & Hthree & Hacc)].
  - destruct IH as [Hlen Hex]; [congruence | done |].
    split; [| by rewrite Hex, orb_true_r].
    destruct sent; simpl; lia.
  - split; [| by rewrite Hacc].
    destruct sent; simpl; lia.
Qed.

(** X20.  The button [register-btn], disabled when the page loads, is enabled
    only after at least three attempts have been sent to the server and an
    answer with [success] and [can_register] has arrived. *)
Theorem register_needs_three_attempts
    (feedbackEl : option feedback) (evs : list event) :
  registerBtn (fst (run (init feedbackEl (Some true)) evs)) = Some false ->
  (3 <= length (snd (run (init feedbackEl (Some true)) evs)))%nat
  /\ existsb accepting evs = true.
Proof.
  intros Hon.
  destruct (run_button evs (init feedbackEl (Some true)) eq_refl Hon)
    as [Hlen Hex].
  split; [exact Hlen | exact Hex].
Qed.

Lemma register_needs_three_attempts_witness :
  (3 <= length (snd (run (init None (Some true)) three_attempts)))%nat
  /\ existsb accepting three_attempts = true.
Proof.
  apply (register_needs_three_attempts None three_attempts).
  vm_compute. reflexivity.
Defined.

(** What the three attempts send and leave on the page. *)
Example three_attempts_sent :
  snd (run (init (Some (mkFeedback None None)) (Some true)) three_attempts)
  = [ Payload.mk "a" (Some [Payload.mkTiming "a" 10 90]) 200;
      Payload.mk "a" (Some [Payload.mkTiming "a" 10 95]) 200;
      Payload.mk "a" (Some [Payload.mkTiming "a" 10 85]) 200 ]
  /\ feedbackEl (fst (run (init (Some (mkFeedback None None)) (Some true))
                          three_attempts))
     = Some (mkFeedback (Some Validated) (Some Green)).
Proof. vm_compute. split; reflexivity. Qed.

Lemma step_sent st ev attemptData :
  snd (step st ev) = Some attemptData ->
  Payload.password attemptData <> ""%string
  /\ is_Some (Payload.keystroke_timings attemptData)
  /\ Recorder.isRecording (recorder st) = true
  /\ Recorder.isRecording (recorder (fst (step st ev))) = false.
Proof.
  destruct ev as [now | now k | now k | now value | a outcome]; simpl; try done.
  unfold onBlur.
  destruct (Recorder.isRecording (recorder st)) eqn:Hrec; simpl; [| done].
  destruct (Nat.ltb_spec 0 (String.length value)) as [Hlen | Hlen]; simpl;
    [| done].
  intros [= <-]. simpl. split; [| by split; [eexists |]].
  unfold or_empty. destruct value; [simpl in Hlen; lia | done].
Qed.

(** X21.  Every attempt sent to the server was taken from a recording in
    progress, carries a timing list and a password that is not empty. *)
Theorem sent_attempts_have_password
    (st : state) (evs : list event) (attemptData : Payload.t) :
  In attemptData (snd (run st evs)) ->
  Payload.password attemptData <> ""%string
  /\ is_Some (Payload.keystroke_timings attemptData).
Proof.
  revert st. induction evs as [| ev evs IH]; intros st; simpl; [done |].
  pose proof (step_sent st ev) as Hsent.
  destruct (step st ev) as [st' sent]. simpl in Hsent.
  specialize (IH st'). destruct (run st' evs) as [st'' sent']. simpl in *.
  destruct sent as [a |]; [| exact IH].
  intros [<- | Hin]; [| by apply IH].
  destruct (Hsent a eq_refl) as (Hpw & Hlist & _). by split.
Qed.

Lemma sent_attempts_have_password_witness :
  Payload.password (Payload.mk "a" (Some [Payload.mkTiming "a" 10 95]) 200)
  <> ""%string
  /\ is_Some (Payload.keystroke_timings
                (Payload.mk "a" (Some [Payload.mkTiming "a" 10 95]) 200)).
Proof.
  apply (sent_attempts_have_password (init None (Some true)) three_attempts).
  vm_compute. right. left. reflexivity.
Defined.

Lemma idle_sends_nothing evs : forall st,
  Recorder.isRecording (recorder st) = false ->
  existsb is_focus evs = false ->
  snd (run st evs) = [].
Proof.
  induction evs as [| ev evs IH]; intros st Hidle Hnofocus; simpl in *; [done |].
  apply orb_false_elim in Hnofocus as [Hev Hevs].
  assert (snd (step st ev) = None
          /\ Recorder.isRecording (recorder (fst (step st ev))) = false)
    as [Hnone Hidle'].
  { destruct ev as [now | now k | now k | now value | a outcome]; simpl in *.
    - discriminate Hev.
    - unfold Recorder.onKeyDown. by rewrite Hidle.
    - unfold Recorder.onKeyUp. by rewrite Hidle.
    - unfold onBlur. by rewrite Hidle.
    - unfold onReply. destruct (success _); [| done].
      destruct (_ <=? _)%nat; [| done]. by destruct (can_register _). }
  destruct (step st ev) as [st' sent]. simpl in *. subst sent.
  specialize (IH st' Hidle' Hevs). by destruct (run st' evs).
Qed.

(** X22.  An attempt needs a focus: whatever the state of the page, events among
    which the input never gains the focus send one attempt at most. *)
Theorem one_attempt_per_focus (st : state) (evs : list event) :
  existsb is_focus evs = false ->
  (length (snd (run st evs)) <= 1)%nat.
Proof.
  revert st. induction evs as [| ev evs IH]; intros st Hnofocus; simpl in *;
    [lia |].
  apply orb_false_elim in Hnofocus as [Hev Hevs].
  pose proof (step_sent st ev) as Hsent.
  destruct (step st ev) as [st' sent]. simpl in Hsent.
  destruct sent as [a |].
  - destruct (Hsent a eq_refl) as (_ & _ & _ & Hidle).
    pose proof (idle_sends_nothing evs st' Hidle Hevs) as Hnone.
    destruct (run st' evs) as [st'' sent']. simpl in *. subst sent'. simpl. lia.
  - specialize (IH st' Hevs). by destruct (run st' evs).
Qed.

Lemma one_attempt_per_focus_witness :
  (length (snd (run (fst (run (init None (Some true)) [Focus 1000]))
                    [KeyDown 1010 "a"; KeyUp 1090 "a"; Blur 1200 "a";
                     KeyDown 1300 "b"; Blur 1400 "ab"])) <= 1)%nat.
Proof.
  apply (one_attempt_per_focus
           (fst (run (init None (Some true)) [Focus 1000]))
           [KeyDown 1010 "a"; KeyUp 1090 "a"; Blur 1200 "a";
            KeyDown 1300 "b"; Blur 1400 "ab"]).
  reflexivity.
Defined.

End practice.

(** ** Entries for the same key *)

Section same_key.
Import Recorder Session Window.

Lemma separated_nil : separated [].
Proof. intros i j ei ej _ Hi. by rewrite lookup_nil in Hi. Qed.

Lemma separated_onKeyDown st last now k :
  (last <= now)%Q -> reachable st -> started st last -> windowed st last ->
  separated (timings st) -> separated (timings (onKeyDown st now k)).
Proof.
  intros Hle Hreach Hst Hw Hsep. unfold onKeyDown.
  destruct (isRecording st) eqn:Hrec; [| done].
  destruct (Hst Hrec) as (s & Hs & _).
  destruct (windowed_later st last now Hle Hw) as [Hset Hrel].
  pose proof (Hset s Hs) as Htruthy.
  assert (elapsed st now = Math_round (now - s)) as Hel
    by (unfold elapsed; by rewrite Hs, Htruthy).
  rewrite Hs, Htruthy. cbn [negb to_number].
  destruct (keyStates st !! k) as [ks |] eqn:Hk; cbn [timings]; [done |].
  destruct (reachable_open_index st Hreach) as [_ Hbwd].
  intros i j ei ej Hij Hi Hj Hkey.
  pose proof (lookup_lt_Some _ _ _ Hj) as Hjlen.
  rewrite length_app in Hjlen. simpl in Hjlen.
  rewrite lookup_app_l in Hi by lia.
  destruct (decide (j < length (timings st))%nat) as [Hlt | Hge].
  - rewrite lookup_app_l in Hj by done. by apply (Hsep i j).
  - rewrite lookup_app_r in Hj by lia.
    replace (j - length (timings st))%nat with 0%nat in Hj by lia.
    injection Hj as <-. cbn [key press_time] in *.
    destruct (release_time ei) as [r |] eqn:Hr.
    + exists r. split; [done |]. rewrite <- Hel.
      exact (Forall_lookup_1 _ _ _ _ Hrel Hi r Hr).
    + destruct (Hbwd _ _ Hi Hr) as (ks & Hks & _). congruence.
Qed.

Lemma separated_onKeyUp st now k :
  reachable st -> separated (timings st) ->
  separated (timings (onKeyUp st now k)).
Proof.
  intros Hreach Hsep. unfold onKeyUp.
  destruct (isRecording st); simpl; [| done].
  destruct (keyStates st !! k) as [ks |] eqn:Hk; simpl; [| done].
  destruct (timings st !! KeyState.index ks) as [e |] eqn:He; [| done].
  destruct (release_time e) eqn:Hrel; [done |].
  intros i j ei ej Hij Hi Hj Hkey.
  apply list_lookup_insert_Some in Hi, Hj.
  assert (exists ej0, timings st !! j = Some ej0 /\ key ej0 = key ej
                      /\ press_time ej0 = press_time ej) as (ej0 & Hj0 & Hk0 & Hp0).
  { destruct Hj as [(<- & <- & _) | [_ Hj]]; [by exists e | by exists ej]. }
  destruct Hi as [(<- & <- & _) | [_ Hi]].
  - simpl in Hkey. rewrite <- Hk0 in Hkey.
    destruct (Hsep _ _ _ _ Hij He Hj0 Hkey) as (r & Hr & _). congruence.
  - rewrite <- Hk0 in Hkey. rewrite <- Hp0. by apply (Hsep i j).
Qed.

Lemma separated_run evs : forall st last,
  monotone_from last (List.map clock evs) = true ->
  all_positive (List.map clock evs) = true ->
  reachable st -> timed st last -> windowed st last ->
  separated (timings st) ->
  separated (timings (run st evs)).
Proof.
  induction evs as [| ev evs IH]; intros st last Hmono Hpos Hreach Ht Hw Hsep;
    simpl in *; [done |].
  apply andb_prop in Hmono as [Hle%Qle_bool_iff Hrest].
  apply andb_prop in Hpos as [Hev Hevs].
  assert (0 < clock ev)%Q as Hlt.
  { apply Qnot_le_lt. intros Hneg%Qle_bool_iff.
    rewrite Hneg in Hev. discriminate Hev. }
  destruct Ht as (Hst & Hord & Hok).
  apply (IH (step st ev) (clock ev)); try done.
  - by constructor.
  - split; [| split].
    + by apply (started_step st last).
    + by apply (ordered_step st last).
    + by apply (dwell_ok_step st last).
  - by apply (windowed_step st last).
  - destruct ev as [now | now v | now k | now k | now v | now].
    + exact separated_nil.
    + exact Hsep.
    + by apply (separated_onKeyDown st last).
    + by apply separated_onKeyUp.
    + exact Hsep.
    + exact separated_nil.
Qed.

(** X8.  When the clock readings are positive and never go back, two entries
    for the same key never overlap: the earlier one has been released, at
    a time that is not after the press time of the later one.  The same
    holds of the entries of an export. *)
Theorem same_key_entries_do_not_overlap (evs : list event) :
  clock_monotone (List.map clock evs) = true ->
  all_positive (List.map clock evs) = true ->
  forall i j ei ej,
    (i < j)%nat ->
    timings (run init evs) !! i = Some ei ->
    timings (run init evs) !! j = Some ej ->
    key ei = key ej ->
    exists r, release_time ei = Some r /\ r <= press_time ej.
Proof.
  intros Hmono Hpos.
  destruct evs as [| ev evs]; [exact separated_nil |].
  apply (separated_run (ev :: evs) init (clock ev)).
  - simpl in *. rewrite Hmono, andb_true_r. apply Qle_bool_iff, Qle_refl.
  - exact Hpos.
  - constructor.
  - apply timed_init.
  - split; [done | constructor].
  - exact separated_nil.
Qed.

Lemma same_key_entries_do_not_overlap_witness :
  exists r, release_time (mkEntry "a" 10 (Some 90) 0) = Some r
            /\ r <= press_time (mkEntry "a" 150 (Some 240) 1).
Proof.
  apply (same_key_entries_do_not_overlap
           [Start 1; KeyDown 11 "a"; KeyUp 91 "a"; KeyDown 151 "a"; KeyUp 241 "a"]
           eq_refl eq_refl 0%nat 1%nat).
  - lia.
  - reflexivity.
  - reflexivity.
  - reflexivity.
Defined.

End same_key.

(** ** Times and dwell times *)

Section delays.
Import Samples Pairs.

Lemma lookup_map {A B} (f : A -> B) (l : list A) (i : nat) :
  List.map f l !! i = option_map f (l !! i).
Proof.
  revert i. induction l as [| x l IH]; intros [| i]; simpl; auto.
Qed.

Lemma loop_body_delay (c1 c2 : Z) (timings1 timings2 : list Payload.timing) acc i :
  Comparator.loop_body (List.map (delay_timing c1) timings1)
                       (List.map (delay_timing c2) timings2) acc i
  = Comparator.loop_body timings1 timings2 acc i.
Proof.
  unfold Comparator.loop_body. rewrite !lookup_map.
  destruct (timings1 !! i) as [t1 |], (timings2 !! i) as [t2 |]; simpl; try done.
  replace (Payload.release_time t1 + c1 - (Payload.press_time t1 + c1))
    with (Payload.release_time t1 - Payload.press_time t1) by lia.
  replace (Payload.release_time t2 + c2 - (Payload.press_time t2 + c2))
    with (Payload.release_time t2 - Payload.press_time t2) by lia.
  done.
Qed.

(** X16.  The comparator looks at keys and dwell times only: moving all the
    times of either payload by a constant changes nothing of the result. *)
Theorem compare_ignores_delay
    (c1 c2 : Z) (pattern1 pattern2 : Payload.t) (threshold : Q) :
  Comparator.compareKeystrokePatterns (delay c1 pattern1) (delay c2 pattern2)
                                      threshold
  = Comparator.compareKeystrokePatterns pattern1 pattern2 threshold.
Proof.
  unfold Comparator.compareKeystrokePatterns, delay. simpl.
  destruct (Payload.keystroke_timings pattern1) as [timings1 |],
           (Payload.keystroke_timings pattern2) as [timings2 |]; try done.
  rewrite !length_map.
  assert (Comparator.dwell_loop (List.map (delay_timing c1) timings1)
                                (List.map (delay_timing c2) timings2)
          = Comparator.dwell_loop timings1 timings2) as ->; [| done].
  unfold Comparator.dwell_loop. rewrite !length_map.
  generalize (seq 0 (Nat.min (length timings1) (length timings2))) (0, 0%nat).
  intros positions. induction positions as [| i positions IH]; intros acc;
    simpl; [done |].
  by rewrite loop_body_delay, IH.
Qed.

Lemma flights_delay (c : Z) (timings : list Payload.timing) :
  Analyzer.flights (List.map (delay_timing c) timings) = Analyzer.flights timings.
Proof.
  induction timings as [| t [| t' timings] IH]; simpl in *; try done.
  rewrite IH. f_equal. lia.
Qed.

Lemma dwells_delay (c : Z) (timings : list Payload.timing) :
  List.map Payload.dwell (List.map (delay_timing c) timings)
  = List.map Payload.dwell timings.
Proof.
  rewrite map_map. apply map_ext. intros t. unfold Payload.dwell. simpl. lia.
Qed.

(** X19.  So does the analyzer: it looks at dwell and flight times only. *)
Theorem analyze_ignores_delay (c : Z) (data : Payload.t) :
  Analyzer.analyzeKeystrokePattern (delay c data)
  = Analyzer.analyzeKeystrokePattern data.
Proof.
  unfold Analyzer.analyzeKeystrokePattern, delay. simpl.
  destruct (Payload.keystroke_timings data) as [timings |]; [| done].
  by rewrite length_map, dwells_delay, flights_delay.
Qed.

End delays.
